(** * GPON Prometheus collector: the telnet session, the prompt scanner and
      the response parser of [prometheus_collector/collector.py].

    Python [str] values are modelled as [string]: sequences of characters
    with code points below 256.  On that range the classes used by the
    program are exact: [\d] is ['0'..'9'], [.] is every character but the
    line feed, and [str.lower] moves ['A'..'Z'] and the Latin-1 capitals.

    The [print] calls of the program are left out: they write to the
    standard output only and never change what is sent, read, published or
    closed. *)

From Stdlib Require Import Ascii QArith Lqa.
From stdpp Require Import base list strings gmap.

(** ** Python [str] methods used by the collector *)

Module Py.

(** [s.startswith(prefix)] *)
Fixpoint startswith (s prefix : string) : bool :=
  match prefix, s with
  | "", _ => true
  | String p prefix', String c s' => Ascii.eqb p c && startswith s' prefix'
  | String _ _, "" => false
  end.

(** [s.endswith(suffix)] *)
Fixpoint endswith (s suffix : string) : bool :=
  String.eqb s suffix ||
  match s with
  | "" => false
  | String _ s' => endswith s' suffix
  end.

(** [needle in s] *)
Fixpoint contains (s needle : string) : bool :=
  startswith s needle ||
  match s with
  | "" => false
  | String _ s' => contains s' needle
  end.

Definition lower_char (c : ascii) : ascii :=
  let n := N_of_ascii c in
  if ((65 <=? n) && (n <=? 90))%N
     || ((192 <=? n) && (n <=? 222) && negb (n =? 215))%N
  then ascii_of_N (n + 32)
  else c.

(** [s.lower()] *)
Fixpoint lower (s : string) : string :=
  match s with
  | "" => ""
  | String c s' => String (lower_char c) (lower s')
  end.

(** [not s]: the empty string is the only false one. *)
Definition is_empty (s : string) : bool :=
  match s with "" => true | String _ _ => false end.

End Py.

(** ** The fragment of Python's [re] the collector uses

    A backtracking matcher in the style of [re]: every construct lists its
    ways to match at the head of the subject in the order the engine tries
    them (greedy repetitions longest first), and [search] takes the first
    way at the leftmost position that has one. *)

Module Re.

Inductive atom : Type :=
  | Chr (c : ascii)      (* a literal character *)
  | Digit                (* \d *)
  | Dot.                 (* .  *)

Inductive regex : Type :=
  | Eps
  | Atom (a : atom)
  | Seq (r1 r2 : regex)
  | Opt (r : regex)      (* r?  *)
  | Star (a : atom)      (* a*  *)
  | Plus (a : atom)      (* a+  *)
  | Group (r : regex).   (* (r) *)

Definition is_digit (c : ascii) : bool :=
  let n := N_of_ascii c in ((48 <=? n) && (n <=? 57))%N.

Definition newline : ascii := "010"%char.

Definition atom_matches (a : atom) (c : ascii) : bool :=
  match a with
  | Chr c' => Ascii.eqb c' c
  | Digit => is_digit c
  | Dot => negb (Ascii.eqb c newline)
  end.

(** A literal string is the sequence of its characters. *)
Fixpoint lit (s : string) : regex :=
  match s with
  | "" => Eps
  | String c s' => Seq (Atom (Chr c)) (lit s')
  end.

(** The ways [a*] matches at the head of [s], as (matched, remainder),
    longest first. *)
Fixpoint star (a : atom) (s : string) : list (string * string) :=
  match s with
  | String c s' =>
      if atom_matches a c
      then map (λ '(m, s''), (String c m, s'')) (star a s') ++ [("", s)]
      else [("", s)]
  | "" => [("", "")]
  end.

(** The ways [r] matches at the head of [s]: the matched text, the
    captured groups in the order their parentheses open, the remainder. *)
Fixpoint run (r : regex) (s : string) : list (string * list string * string) :=
  match r with
  | Eps => [("", [], s)]
  | Atom a =>
      match s with
      | String c s' => if atom_matches a c then [(String c "", [], s')] else []
      | "" => []
      end
  | Seq r1 r2 =>
      run r1 s ≫= λ '(m1, g1, s1),
      run r2 s1 ≫= λ '(m2, g2, s2),
      [(m1 +:+ m2, g1 ++ g2, s2)]
  | Opt r => run r s ++ [("", [], s)]
  | Star a => map (λ '(m, s'), (m, [], s')) (star a s)
  | Plus a =>
      match s with
      | String c s' =>
          if atom_matches a c
          then map (λ '(m, s''), (String c m, [], s'')) (star a s')
          else []
      | "" => []
      end
  | Group r => map (λ '(m, g, s'), (m, m :: g, s')) (run r s)
  end.

(** A match object: where the match starts, [group(0)] and the groups. *)
Record Match : Type := mkMatch {
  start : nat;
  whole : string;
  captures : list string
}.

(** [m.group(i)] *)
Definition group (m : Match) (i : nat) : string :=
  nth i (whole m :: captures m) "".

Fixpoint search_from (pos : nat) (r : regex) (s : string) : option Match :=
  match run r s with
  | (m, g, _) :: _ => Some (mkMatch pos m g)
  | [] =>
      match s with
      | String _ s' => search_from (S pos) r s'
      | "" => None
      end
  end.

(** [re.search(r, s)] *)
Definition search (r : regex) (s : string) : option Match := search_from 0 r s.

End Re.

(** ** The collector *)

(** The six gauges, [Gauge(...)] objects labelled by [ip]. *)
Inductive Gauge : Type :=
  | temperature_gauge
  | voltage_gauge
  | tx_power_gauge
  | rx_power_gauge
  | bias_current_gauge
  | onu_state_gauge.

(** What [gauge.set] is given: [float(text)] of a matched text, or an
    integer of the state table.  The rounding of [float] is not modelled;
    a float is identified by the decimal text it is converted from. *)
Inductive Value : Type :=
  | PyFloat (text : string)
  | PyInt (n : Z).

(** [gauge.labels(ip=hostname).set(value)] *)
Record Observation : Type := mkObservation {
  obs_gauge : Gauge;
  obs_ip : string;
  obs_value : Value
}.

Definition onu_state_mapping : gmap string Z :=
  <["01" := 1%Z]> (<["02" := 2%Z]> (<["03" := 3%Z]> (<["04" := 4%Z]>
  (<["O5" := 5%Z]> (<["06" := 6%Z]> (<["07" := 7%Z]> ∅)))))).

(** [onu_state_mapping.get(code, 0)] *)
Definition onu_state_mapping_get (code : string) : Z :=
  default 0%Z (onu_state_mapping !! code).

(** The pattern of the power readings: a group of an optional minus sign,
    digits, a dot, digits. *)
Definition signed_decimal_re : Re.regex :=
  Re.Group (Re.Seq (Re.Opt (Re.Atom (Re.Chr "-")))
           (Re.Seq (Re.Plus Re.Digit)
           (Re.Seq (Re.Atom (Re.Chr ".")) (Re.Plus Re.Digit)))).

(** The pattern of the other readings: a group of digits, a dot, digits. *)
Definition decimal_re : Re.regex :=
  Re.Group (Re.Seq (Re.Plus Re.Digit)
           (Re.Seq (Re.Atom (Re.Chr ".")) (Re.Plus Re.Digit))).

(** The pattern of the state reading: the marker, then a group holding
    the rest of the line. *)
Definition onu_state_re : Re.regex :=
  Re.Seq (Re.lit "ONU state: ") (Re.Group (Re.Star Re.Dot)).

(** The body of the command loop after the response is captured (the
    if / elif / else on [command]): the observation handed to the gauge,
    if any. *)
Definition parse_result (hostname command : string) (gauge : Gauge)
    (result : string) : option Observation :=
  if bool_decide (command ∈ ["diag pon get transceiver rx-power";
                              "diag pon get transceiver tx-power"])
  then
    match Re.search signed_decimal_re result with
    | Some value => Some (mkObservation gauge hostname (PyFloat (Re.group value 0)))
    | None => None
    end
  else if Py.startswith command "diag gpon get onu-state"
  then
    match Re.search onu_state_re result with
    | Some state_code =>
        Some (mkObservation gauge hostname
                (PyInt (onu_state_mapping_get (Re.group state_code 1))))
    | None => None
    end
  else
    match Re.search decimal_re result with
    | Some value => Some (mkObservation gauge hostname (PyFloat (Re.group value 0)))
    | None => None
    end.

(** The [commands] dict; [items()] iterates it in insertion order. *)
Definition commands : list (string * Gauge) :=
  [ ("diag pon get transceiver bias-current", bias_current_gauge);
    ("diag pon get transceiver rx-power", rx_power_gauge);
    ("diag pon get transceiver temperature", temperature_gauge);
    ("diag pon get transceiver tx-power", tx_power_gauge);
    ("diag pon get transceiver voltage", voltage_gauge);
    ("diag gpon get onu-state", onu_state_gauge) ].

Definition LF : string := String Re.newline "".
Definition CRLF : string := String "013"%char LF.

(** ** The world the collector runs in

    A session talks to one device.  The world holds what the device and
    the network will do (the outcome of the connection attempt, of each
    successive read and of each successive await on the writer), the wall
    clock, and the history of what has happened so far. *)

(** The exceptions of class [Exception]: [asyncio.TimeoutError] and any
    other one (connection refused or reset, ...). *)
Inductive Exn : Type :=
  | TimeoutError
  | Error.

Inductive Outcome (A : Type) : Type :=
  | Return (a : A)
  | Raise (e : Exn).
Arguments Return {A} a.
Arguments Raise {A} e.

(** What one [await asyncio.wait_for(reader.read(1024), timeout=1)] does:
    it returns text (the empty string once the stream is closed), or no
    byte arrives within the sub-timeout and [asyncio.TimeoutError] is
    raised, or the read itself raises.  The reader of the connection is
    opened with the default encoding and hands out [str]. *)
Inductive ReadResult : Type :=
  | Chunk (data : string)
  | ReadTimeout
  | ReadRaise.

(** A read and the time [time.time()] moved while it was awaited. *)
Record ReadEvent : Type := mkRead {
  elapsed : Q;
  result : ReadResult
}.

Inductive Action : Type :=
  | Opened                       (* open_connection returned *)
  | Sent (data : string)         (* writer.write(data) *)
  | Received (r : ReadResult)    (* one awaited read *)
  | Published (o : Observation)  (* gauge.labels(ip=..).set(..) *)
  | Closed.                      (* writer.close() *)

Record World : Type := mkWorld {
  clock : Q;
  connect : Outcome unit;
  incoming : list ReadEvent;
  faults : list (option Exn);
  trace : list Action
}.

Definition log (a : Action) (w : World) : World :=
  mkWorld (clock w) (connect w) (incoming w) (faults w) (trace w ++ [a]).

(** The state and exception monad of the program. *)
Definition M (A : Type) : Type := World → Outcome A * World.

Definition ret {A : Type} (a : A) : M A := λ w, (Return a, w).

Definition raise {A : Type} (e : Exn) : M A := λ w, (Raise e, w).

Definition bind {A B : Type} (m : M A) (k : A → M B) : M B :=
  λ w, match m w with
       | (Return a, w') => k a w'
       | (Raise e, w') => (Raise e, w')
       end.

(** try: body / except Exception as e: handler e *)
Definition try_except {A : Type} (body : M A) (handler : Exn → M A) : M A :=
  λ w, match body w with
       | (Return a, w') => (Return a, w')
       | (Raise e, w') => handler e w'
       end.

#[global] Instance M_ret : MRet M := @ret.
#[global] Instance M_bind : MBind M := λ A B k m, bind m k.

(** [time.time()] *)
Definition time_time : M Q := λ w, (Return (clock w), w).

(** [await asyncio.wait_for(reader.read(1024), timeout=1)].  A world with
    no read left is one whose stream is closed: the read returns the empty
    string at once. *)
Definition wait_for_read : M string :=
  λ w, match incoming w with
       | [] => (Return "", w)
       | ev :: rest =>
           let w' := mkWorld (clock w + elapsed ev)%Q (connect w) rest
                             (faults w) (trace w ++ [Received (result ev)]) in
           match result ev with
           | Chunk data => (Return data, w')
           | ReadTimeout => (Raise TimeoutError, w')
           | ReadRaise => (Raise Error, w')
           end
       end.

(** [writer.write(data)] *)
Definition writer_write (data : string) : M unit :=
  λ w, (Return tt, log (Sent data) w).

(** An await on the writer ([drain], [wait_closed]): it succeeds unless
    the world holds a fault for it. *)
Definition writer_await : M unit :=
  λ w, match faults w with
       | [] => (Return tt, w)
       | f :: rest =>
           let w' := mkWorld (clock w) (connect w) (incoming w) rest (trace w) in
           match f with
           | None => (Return tt, w')
           | Some e => (Raise e, w')
           end
       end.

Definition writer_drain : M unit := writer_await.
Definition writer_wait_closed : M unit := writer_await.

(** [writer.close()] *)
Definition writer_close : M unit :=
  λ w, (Return tt, log Closed w).

(** [await asyncio.wait_for(telnetlib3.open_connection(hostname, port),
    timeout=15)] *)
Definition open_connection (hostname : string) (port : Z) : M unit :=
  λ w, match connect w with
       | Return _ => (Return tt, log Opened w)
       | Raise e => (Raise e, w)
       end.

(** [gauge.labels(ip=hostname).set(value)] *)
Definition gauge_set (o : Observation) : M unit :=
  λ w, (Return tt, log (Published o) w).

(** The test that ends the scan: the buffer ends like a prompt. *)
Definition prompt_like (buffer : string) : bool :=
  Py.endswith buffer "$ " || Py.endswith buffer "# " || Py.endswith buffer "> " ||
  Py.endswith buffer "$" || Py.endswith buffer "#" || Py.endswith buffer ">".

(** How one turn of the [while] loop of [wait_for_prompt] ends: at the
    loop test again ([continue], or the end of the body), or out of the
    function with the buffer ([break] then [return buffer], or the
    [return buffer] in the body). *)
Inductive Control : Type :=
  | Continue (buffer : string)
  | Leave (buffer : string).

(** The body of the [while] loop: the inner [try] with its
    [except asyncio.TimeoutError: continue]. *)
Definition wait_for_prompt_body (buffer : string) : M Control :=
  try_except
    (chunk ← wait_for_read;
     if Py.is_empty chunk then mret (Leave buffer)
     else
       let buffer := buffer +:+ chunk in
       if prompt_like buffer then mret (Leave buffer)
       else mret (Continue buffer))
    (λ e, match e with
          | TimeoutError => mret (Continue buffer)
          | Error => raise Error
          end).

(** The [while] loop of [wait_for_prompt].  Every turn that comes back to
    the loop test has taken one read from the world, and a world with no
    read left ends the loop, so [fuel] above the number of reads left is
    never used up. *)
Fixpoint wait_for_prompt_loop (fuel : nat) (timeout start_time : Q)
    (buffer : string) : M string :=
  match fuel with
  | O => mret buffer
  | S fuel' =>
      now ← time_time;
      if Qlt_le_dec (now - start_time) timeout then
        c ← wait_for_prompt_body buffer;
        match c with
        | Continue buffer => wait_for_prompt_loop fuel' timeout start_time buffer
        | Leave buffer => mret buffer
        end
      else mret buffer
  end.

Definition wait_for_prompt (timeout : Q) : M string :=
  try_except
    (λ w, (start_time ← time_time;
           wait_for_prompt_loop (S (length (incoming w))) timeout start_time "") w)
    (λ e, mret "").

Definition execute_telnet_command (command : string) (timeout : Q) : M string :=
  try_except
    (writer_write (command +:+ CRLF);;
     writer_drain;;
     wait_for_prompt timeout)
    (λ e, mret "").

(** The [for command, gauge in commands.items()] loop. *)
Fixpoint for_commands (hostname : string) (items : list (string * Gauge)) : M unit :=
  match items with
  | [] => mret tt
  | (command, gauge) :: items' =>
      result ← execute_telnet_command command 30;
      match parse_result hostname command gauge result with
      | Some o => gauge_set o
      | None => mret tt
      end;;
      for_commands hostname items'
  end.

(** The two early [return]s of the source are the two [else] branches
    here; the command loop and the final close follow the password
    exchange. *)
Definition fetch_and_update_metrics_via_telnet
    (hostname : string) (port : Z) (username password : string) : M unit :=
  try_except
    (open_connection hostname port;;
     initial_response ← wait_for_prompt 10;
     if Py.contains (Py.lower initial_response) "login:"
        || Py.contains (Py.lower initial_response) "username:"
     then
       writer_write (username +:+ CRLF);;
       writer_drain;;
       password_response ← wait_for_prompt 10;
       if Py.contains (Py.lower password_response) "password:"
       then
         writer_write (password +:+ CRLF);;
         writer_drain;;
         shell_response ← wait_for_prompt 10;
         for_commands hostname commands;;
         writer_close;;
         writer_wait_closed
       else writer_close
     else writer_close)
    (λ e, mret tt).

Definition fetch_and_update_metrics_via_telnet_sync
    (hostname : string) (port : Z) (username password : string) : M unit :=
  try_except
    (fetch_and_update_metrics_via_telnet hostname port username password)
    (λ e, mret tt).

(** ** Configuration and the polling sweep *)

(** More [str] methods, used when the configuration is read. *)
Module Str.

(** [c.isspace()], for code points below 256. *)
Definition is_space (c : ascii) : bool :=
  let n := N_of_ascii c in
  (((9 <=? n) && (n <=? 13)) || ((28 <=? n) && (n <=? 32))
   || (n =? 133) || (n =? 160))%N.

Fixpoint lstrip (s : string) : string :=
  match s with
  | "" => ""
  | String c s' => if is_space c then lstrip s' else s
  end.

Fixpoint rstrip (s : string) : string :=
  match s with
  | "" => ""
  | String c s' =>
      let r := rstrip s' in
      if is_space c && Py.is_empty r then "" else String c r
  end.

(** [s.strip()] *)
Definition strip (s : string) : string := rstrip (lstrip s).

(** [s.split(sep)] for a separator of one character *)
Fixpoint split (sep : ascii) (s : string) : list string :=
  match s with
  | "" => [""]
  | String c s' =>
      if Ascii.eqb c sep then "" :: split sep s'
      else match split sep s' with
           | piece :: pieces => String c piece :: pieces
           | [] => [String c ""]
           end
  end.

End Str.

(** [os.environ], as [os.getenv] reads it. *)
Abbreviation Environ := (gmap string string).

(** [str] as a conversion: the text itself. *)
Definition py_str (x : string) : Outcome string := Return x.

(** The list comprehension [[convert_func(x) for x in xs]]: the
    conversions are made in order and the first that raises ends it. *)
Fixpoint convert_each {A : Type} (convert_func : string → Outcome A)
    (xs : list string) : Outcome (list A) :=
  match xs with
  | [] => Return []
  | x :: xs' =>
      match convert_func x with
      | Raise e => Raise e
      | Return a =>
          match convert_each convert_func xs' with
          | Raise e => Raise e
          | Return l => Return (a :: l)
          end
      end
  end.

(** [arg_list] is [None] when the flag was not given, a list otherwise;
    it counts as true when it is a list that is not empty. *)
Definition parse_env_list {A : Type} (environ : Environ) (env_var : string)
    (arg_list : option (list A)) (convert_func : string → Outcome A)
    (default_value : option A) : Outcome (list A) :=
  match arg_list with
  | Some (a :: l) => Return (a :: l)
  | _ =>
      match environ !! env_var with
      | Some (String c v) =>
          convert_each convert_func (Str.strip <$> Str.split "," (String c v))
      | _ => Return (match default_value with Some d => [d] | None => [] end)
      end
  end.

(** The parsed command line, as far as the devices go. *)
Record Args : Type := mkArgs {
  args_hostname : option (list string);
  args_port : option (list Z);
  args_user : option (list string);
  args_password : option (list string)
}.

(** The same once the defaults are applied and the checks passed. *)
Record Config : Type := mkConfig {
  cfg_hostname : list string;
  cfg_port : list Z;
  cfg_user : list string;
  cfg_password : list string
}.

(** How the start of the program ends: the configuration is accepted,
    or [parser.error] ends the program with a message, or a conversion
    raised. *)
Inductive Startup : Type :=
  | Started (cfg : Config)
  | ParserError (message : string)
  | Crashed (e : Exn).

(** [if not args.x: args.x = parse_env_list(...)] *)
Definition apply_default {A : Type} (environ : Environ) (env_var : string)
    (current : option (list A)) (convert_func : string → Outcome A)
    (default_value : option A) : Outcome (list A) :=
  match current with
  | Some (a :: l) => Return (a :: l)
  | _ => parse_env_list environ env_var current convert_func default_value
  end.

(** [len(set(list_lengths)) != 1] *)
Definition lengths_differ (list_lengths : list nat) : bool :=
  negb (size (list_to_set list_lengths : gset nat) =? 1).

(** The statements of the module between [parse_args] and the gauges:
    the defaults from the environment, then the checks.  [int] is the
    conversion [int] of Python, [Raise] standing for its [ValueError]. *)
Definition load_config (int : string → Outcome Z) (environ : Environ)
    (args : Args) : Startup :=
  match apply_default environ "GPON_HOSTNAMES" (args_hostname args) py_str None with
  | Raise e => Crashed e
  | Return hostname =>
  match apply_default environ "GPON_PORTS" (args_port args) int (Some 23%Z) with
  | Raise e => Crashed e
  | Return port =>
  match apply_default environ "GPON_USERS" (args_user args) py_str None with
  | Raise e => Crashed e
  | Return user =>
  match apply_default environ "GPON_PASSWORDS" (args_password args) py_str None with
  | Raise e => Crashed e
  | Return password =>
      if bool_decide (hostname = []) then
        ParserError "--hostname is required (or set GPON_HOSTNAMES environment variable)"
      else if bool_decide (port = []) then
        ParserError "--port is required (or set GPON_PORTS environment variable)"
      else if bool_decide (user = []) then
        ParserError "--user is required (or set GPON_USERS environment variable)"
      else if bool_decide (password = []) then
        ParserError "--password is required (or set GPON_PASSWORDS environment variable)"
      else if lengths_differ [length hostname; length port; length user; length password]
      then
        ParserError "All device configuration lists (hostname, port, user, password) must have the same length"
      else Started (mkConfig hostname port user password)
  end end end end.








(** ** Vocabulary of the statements *)

(** Every character of [s] satisfies [p]. *)
Fixpoint chars_all (p : ascii → bool) (s : string) : Prop :=
  match s with
  | "" => True
  | String c s' => p c = true ∧ chars_all p s'
  end.

(** The texts a pattern matches as a whole: the declarative reading of
    [Re.regex], against which the matcher is checked. *)
Fixpoint lang (r : Re.regex) (m : string) : Prop :=
  match r with
  | Re.Eps => m = ""
  | Re.Atom a => ∃ c, m = String c "" ∧ Re.atom_matches a c = true
  | Re.Seq r1 r2 => ∃ m1 m2, m = m1 +:+ m2 ∧ lang r1 m1 ∧ lang r2 m2
  | Re.Opt r => m = "" ∨ lang r m
  | Re.Star a => chars_all (Re.atom_matches a) m
  | Re.Plus a => m ≠ "" ∧ chars_all (Re.atom_matches a) m
  | Re.Group r => lang r m
  end.

(** [m] occurs in [text] at offset [i] and belongs to [L]. *)
Definition occurs_at (L : string → Prop) (text : string) (i : nat) (m : string) : Prop :=
  ∃ pre post, text = pre +:+ m +:+ post ∧ String.length pre = i ∧ L m.

(** The first match of [L] in [text]: no member of [L] starts further
    left, and none starting at the same place is longer. *)
Definition first_match (L : string → Prop) (text : string) (i : nat) (m : string) : Prop :=
  occurs_at L text i m ∧
  ∀ j m', occurs_at L text j m' →
    i < j ∨ (i = j ∧ String.length m' ≤ String.length m).

(** A non-empty run of the digits 0 to 9. *)
Definition digits (s : string) : Prop := s ≠ "" ∧ chars_all Re.is_digit s.

(** The numbers the numeric commands look for, in the words of the
    specification: digits, a dot, digits, after an optional minus sign
    when [signed]. *)
Definition decimal_number (signed : bool) (m : string) : Prop :=
  ∃ sign ip fp,
    m = sign +:+ ip +:+ "." +:+ fp ∧
    (sign = "" ∨ (signed = true ∧ sign = "-")) ∧
    digits ip ∧ digits fp.


(** [needle] occurs somewhere in [text]. *)
Definition occurs (needle text : string) : Prop :=
  ∃ pre post, text = pre +:+ needle +:+ post.

(** [code] is what follows the first "ONU state: " of [text] on its line:
    it runs up to the line feed or the end of the text. *)
Definition state_line (text code : string) : Prop :=
  ∃ pre post,
    text = pre +:+ "ONU state: " +:+ code +:+ post ∧
    (∀ pre' post', text = pre' +:+ "ONU state: " +:+ post' →
       String.length pre ≤ String.length pre') ∧
    chars_all (λ c, negb (Ascii.eqb c Re.newline)) code ∧
    (post = "" ∨ ∃ t, post = String Re.newline t).

(** The buffer ends with [$], [#] or [>], or with one of them and one
    space. *)
Definition prompt_terminated (buffer : string) : Prop :=
  ∃ pre c, (c = "$" ∨ c = "#" ∨ c = ">") ∧
           (buffer = pre +:+ c ∨ buffer = pre +:+ c +:+ " ").

(** The text a read brings, the text and the time of a run of reads. *)
Definition chunk_text (ev : ReadEvent) : string :=
  match result ev with Chunk data => data | _ => "" end.

Fixpoint chunks (evs : list ReadEvent) : string :=
  match evs with
  | [] => ""
  | ev :: evs' => chunk_text ev +:+ chunks evs'
  end.

Fixpoint duration (evs : list ReadEvent) : Q :=
  match evs with
  | [] => 0
  | ev :: evs' => elapsed ev + duration evs'
  end.

(** The world once a read has been taken, and once a run of them has. *)
Definition read_one (ev : ReadEvent) (w : World) : World :=
  mkWorld (clock w + elapsed ev)%Q (connect w) (tail (incoming w)) (faults w)
          (trace w ++ [Received (result ev)]).

Definition read_all (evs : list ReadEvent) (w : World) : World :=
  fold_left (λ w ev, read_one ev w) evs w.

(** A run of reads through which a scan stays open: the scan has been
    going for [spent] with [buffer] gathered; before each read the time
    budget is not used up, and each read either brings nothing within the
    sub-timeout or brings text that leaves the buffer not ending like a
    prompt. *)
Fixpoint waits (timeout spent : Q) (buffer : string) (evs : list ReadEvent) : Prop :=
  match evs with
  | [] => True
  | ev :: evs' =>
      (spent < timeout)%Q ∧
      match result ev with
      | Chunk data =>
          data ≠ "" ∧ ¬ prompt_terminated (buffer +:+ data) ∧
          waits timeout (spent + elapsed ev) (buffer +:+ data) evs'
      | ReadTimeout => waits timeout (spent + elapsed ev) buffer evs'
      | ReadRaise => False
      end
  end.

(** The history entries of a run of reads. *)
Definition receiveds (evs : list ReadEvent) : list Action :=
  map (λ ev, Received (result ev)) evs.

(** The observations published in a piece of history, in order. *)
Definition published (actions : list Action) : list Observation :=
  omap (λ a, match a with Published o => Some o | _ => None end) actions.

(** The piece of history of one command of the table: the command is
    written, its response is scanned (the reads taken for it), and the
    observation parsed from the captured response, if any, is published.
    The captured response is the text of those reads, or the empty text
    when the exchange failed. *)
Definition command_segment (hostname : string) (item : string * Gauge)
    (seg : list Action) : Prop :=
  ∃ reads response,
    seg = Sent (item.1 +:+ CRLF) :: receiveds reads ++
          option_list (Published <$> parse_result hostname item.1 item.2 response) ∧
    (response = chunks reads ∨ response = "").

(** The session has opened the connection, seen a login prompt, written
    the user name, and scanned [password_response], which brought it to
    [w2]. *)
Definition login_answered (username : string) (w w2 : World)
    (password_response : string) : Prop :=
  ∃ initial_response w1 w1',
    connect w = Return tt ∧
    wait_for_prompt 10 (log Opened w) = (Return initial_response, w1) ∧
    (occurs "login:" (Py.lower initial_response) ∨
     occurs "username:" (Py.lower initial_response)) ∧
    writer_drain (log (Sent (username +:+ CRLF)) w1) = (Return tt, w1') ∧
    wait_for_prompt 10 w1' = (Return password_response, w2).

(** The session has moreover seen the password prompt, written the
    password and scanned the shell banner, which brought it to [w3]. *)
Definition authenticated (username password : string) (w w3 : World) : Prop :=
  ∃ w2 password_response w2' shell_response,
    login_answered username w w2 password_response ∧
    occurs "password:" (Py.lower password_response) ∧
    writer_drain (log (Sent (password +:+ CRLF)) w2) = (Return tt, w2') ∧
    wait_for_prompt 10 w2' = (Return shell_response, w3).

(** The world once the observation parsed from a response, if there is
    one, has been handed to its gauge. *)
Definition publish (o : option Observation) (w : World) : World :=
  match o with
  | Some o => log (Published o) w
  | None => w
  end.

(** The exchange of one command of the table, from world [w] to world
    [w']: the command is written and the write is flushed; when the
    flush returns, the prompt is scanned for up to 30 time units in the
    world the flush has left, [reads] are the reads that scan takes and
    [response] the text it returns; when the flush raises, no read is
    taken and the response is the empty text.  The response is then
    parsed for the command and the observation, if any, is published.
    [seg] is what all this adds to the history. *)
Definition command_exchange (hostname : string) (item : string * Gauge)
    (w w' : World) (seg : list Action) : Prop :=
  ∃ r w1 response reads,
    writer_drain (log (Sent (item.1 +:+ CRLF)) w) = (r, w1) ∧
    match r with
    | Return _ =>
        wait_for_prompt 30 w1 = (Return response, read_all reads w1) ∧
        (∃ k, reads = take k (incoming w1)) ∧
        (response = chunks reads ∨ response = "")
    | Raise _ => response = "" ∧ reads = []
    end ∧
    w' = publish (parse_result hostname item.1 item.2 response) (read_all reads w1) ∧
    seg = Sent (item.1 +:+ CRLF) :: receiveds reads ++
          option_list (Published <$> parse_result hostname item.1 item.2 response) ∧
    trace w' = trace w ++ seg.

(** The exchanges of the commands [items], one after the other: each
    starts in the world the one before has left. *)
Fixpoint runs_through (hostname : string) (items : list (string * Gauge))
    (w : World) (segs : list (list Action)) (w' : World) : Prop :=
  match items, segs with
  | [], [] => w' = w
  | item :: items', seg :: segs' =>
      ∃ wi, command_exchange hostname item w wi seg ∧
            runs_through hostname items' wi segs' w'
  | _, _ => False
  end.

(** From [w] to [w'] the history has only grown, and [obs] is what has
    been published meanwhile. *)
Definition grows (w w' : World) (obs : list Observation) : Prop :=
  ∃ added, trace w' = trace w ++ added ∧ published added = obs.

(** The way the matcher takes first is a longest one. *)
Definition head_longest (r : Re.regex) : Prop :=
  ∀ s m g s' tl, Re.run r s = (m, g, s') :: tl →
    ∀ m2 g2 s2, (m2, g2, s2) ∈ Re.run r s → String.length m2 ≤ String.length m.

(** The two numeric patterns without their group. *)
Local Abbreviation unsigned_core :=
  (Re.Seq (Re.Plus Re.Digit) (Re.Seq (Re.Atom (Re.Chr ".")) (Re.Plus Re.Digit))).
Local Abbreviation signed_core :=
  (Re.Seq (Re.Opt (Re.Atom (Re.Chr "-"))) unsigned_core).

(** ** Scenarios

    Devices used as examples: what each of them sends, and when. *)

(** Reads in a row that bring nothing within their sub-timeout. *)
Definition silence (n : nat) : list ReadEvent := replicate n (mkRead 1 ReadTimeout).

(** A device that asks for the login name and then shows a shell prompt
    without asking for a password. *)
Definition no_password_world : World :=
  mkWorld 100 (Return tt)
    ([mkRead 0.5 (Chunk "login: ")] ++ silence 10 ++ [mkRead 0.5 (Chunk "> ")])
    [] [].

(** A device that shows its prompt in two pieces and then goes on
    sending. *)
Definition prompt_world : World :=
  mkWorld 100 (Return tt)
    [ mkRead 0.5 (Chunk "login"); mkRead 1 ReadTimeout; mkRead 0.5 (Chunk ": $ ");
      mkRead 0.25 (Chunk "more") ]
    [] [].

(** A device that sends a line without a prompt and stays silent, and
    one that sends the same line and closes the stream. *)
Definition silent_world : World :=
  mkWorld 100 (Return tt)
    [ mkRead 0.5 (Chunk "Temp: 45.30 C"); mkRead 1 ReadTimeout; mkRead 1 ReadTimeout;
      mkRead 0.5 (Chunk "late") ]
    [] [].

Definition closing_world : World :=
  mkWorld 100 (Return tt)
    [ mkRead 0.5 (Chunk "Temp: 45.30 C"); mkRead 0.5 (Chunk "");
      mkRead 0.5 (Chunk "never read") ]
    [] [].

(** A device whose connection is reset after a first line has arrived. *)
Definition reset_world : World :=
  mkWorld 100 (Return tt)
    [ mkRead 0.5 (Chunk "Temp: 45.30 C"); mkRead 0.5 ReadRaise ] [] [].

(** A device that behaves: login prompt, password prompt, shell prompt,
    and a reading for the temperature command only. *)
Definition session_world : World :=
  mkWorld 100 (Return tt)
    ([mkRead 0.5 (Chunk "login: ")] ++ silence 10 ++
     [mkRead 0.5 (Chunk "Password: ")] ++ silence 10 ++
     [ mkRead 0.5 (Chunk "> ");
       mkRead 0.5 (Chunk ("unknown command" +:+ LF +:+ "> "));
       mkRead 0.5 (Chunk ("unknown command" +:+ LF +:+ "> "));
       mkRead 0.5 (Chunk ("Temp: 45.30 C" +:+ LF +:+ "> ")) ])
    [] [].

(** A device that behaves and answers each of the six commands with a
    reading and its prompt. *)
Definition complete_session_world : World :=
  mkWorld 100 (Return tt)
    ([mkRead 0.5 (Chunk "login: ")] ++ silence 10 ++
     [mkRead 0.5 (Chunk "Password: ")] ++ silence 10 ++
     [ mkRead 0.5 (Chunk "> ");
       mkRead 0.5 (Chunk ("Bias Current: 12.50 mA" +:+ LF +:+ "> "));
       mkRead 0.5 (Chunk ("Rx Power: -18.24 dBm" +:+ LF +:+ "> "));
       mkRead 0.5 (Chunk ("Temperature: 45.30 C" +:+ LF +:+ "> "));
       mkRead 0.5 (Chunk ("Tx Power: 2.31 dBm" +:+ LF +:+ "> "));
       mkRead 0.5 (Chunk ("Voltage: 3.28 V" +:+ LF +:+ "> "));
       mkRead 0.5 (Chunk ("ONU state: 03" +:+ LF +:+ "> ")) ])
    [] [].

(** A device whose connection is reset while the user name is being
    flushed to it. *)
Definition reset_on_login_world : World :=
  mkWorld 100 (Return tt)
    ([mkRead 0.5 (Chunk "login: ")] ++ silence 10)
    [Some Error] [].

(** Why a scan that took the reads [taken] and left [rest] returned
    [buffer]: the buffer ends like a prompt after a read that brought
    text; or the time budget is used up; or the stream is closed (no
    read is left, or the last read brought the empty text); or the last
    read raised, and the buffer handed back is the empty one. *)
Definition scan_reason (timeout : Q) (taken rest : list ReadEvent)
    (buffer : string) : Prop :=
  (buffer = chunks taken ∧ prompt_terminated buffer ∧
   ∃ ev data, last taken = Some ev ∧ result ev = Chunk data ∧ data ≠ "") ∨
  (buffer = chunks taken ∧ (timeout <= duration taken)%Q) ∨
  (buffer = chunks taken ∧
   (rest = [] ∨ ∃ ev, last taken = Some ev ∧ result ev = Chunk "")) ∨
  (buffer = "" ∧ ∃ ev, last taken = Some ev ∧ result ev = ReadRaise).

(** The texts written to the device in a piece of history, in order. *)
Definition writes (actions : list Action) : list string :=
  omap (λ a, match a with Sent data => Some data | _ => None end) actions.

(** From [w] to [w'] the history has grown by entries that are no close,
    and some of the awaits on the writer have been met. *)
Definition advances (w w' : World) : Prop :=
  ∃ added n,
    trace w' = trace w ++ added ∧ (Closed ∉ added) ∧
    faults w' = drop n (faults w).

(** Two worlds in which the device and the network will do the same;
    the clock and the history so far may differ. *)
Definition same_device (w1 w2 : World) : Prop :=
  connect w1 = connect w2 ∧ incoming w1 = incoming w2 ∧ faults w1 = faults w2.

(** A computation that does the same in two such worlds: same outcome,
    same entries added to the history, and the device left the same. *)
Definition frame_invariant {A : Type} (m : M A) : Prop :=
  ∀ w1 w2, same_device w1 w2 →
    ∃ r added w1' w2',
      m w1 = (r, w1') ∧ m w2 = (r, w2') ∧ same_device w1' w2' ∧
      trace w1' = trace w1 ++ added ∧ trace w2' = trace w2 ++ added.

(** [sep.join(items)] *)
Fixpoint join (sep : string) (items : list string) : string :=
  match items with
  | [] => ""
  | [item] => item
  | item :: items' => item +:+ sep +:+ join sep items'
  end.

(** The number of characters [c] in [s]. *)
Fixpoint count_char (c : ascii) (s : string) : nat :=
  match s with
  | "" => 0
  | String x s' => (if Ascii.eqb x c then 1 else 0) + count_char c s'
  end.



(** ** Facts about strings *)

Lemma str_app_nil_l (s : string) : "" +:+ s = s.
Proof. reflexivity. Qed.

Lemma str_app_cons (c : ascii) (s t : string) :
  String c s +:+ t = String c (s +:+ t).
Proof. reflexivity. Qed.

Lemma str_app_nil_r (s : string) : s +:+ "" = s.
Proof. induction s as [|c s IH]; [done|]. by rewrite str_app_cons, IH. Qed.

Lemma str_app_assoc (s1 s2 s3 : string) : (s1 +:+ s2) +:+ s3 = s1 +:+ s2 +:+ s3.
Proof. induction s1 as [|c s1 IH]; [done|]. by rewrite !str_app_cons, IH. Qed.

Lemma str_length_app (s1 s2 : string) :
  String.length (s1 +:+ s2) = String.length s1 + String.length s2.
Proof. induction s1 as [|c s1 IH]; [done|]. rewrite str_app_cons. cbn. by rewrite IH. Qed.

Lemma str_app_eq_nil (s1 s2 : string) : s1 +:+ s2 = "" → s1 = "" ∧ s2 = "".
Proof. by destruct s1. Qed.

Lemma str_app_inv_head (s t1 t2 : string) : s +:+ t1 = s +:+ t2 → t1 = t2.
Proof.
  induction s as [|c s IH]; [done|]. rewrite !str_app_cons. intros [=]. auto.
Qed.

(** Two ways to cut one text: the shorter head is a head of the longer. *)
Lemma str_app_eq_app (a b c d : string) :
  a +:+ b = c +:+ d →
  (∃ e, c = a +:+ e ∧ b = e +:+ d) ∨ (∃ e, a = c +:+ e ∧ d = e +:+ b).
Proof.
  revert c. induction a as [|x a IH]; intros c Heq.
  - left. exists c. by rewrite str_app_nil_l in *.
  - destruct c as [|y c].
    + right. exists (String x a). by rewrite str_app_nil_l in *.
    + rewrite !str_app_cons in Heq. injection Heq as -> Heq.
      destruct (IH _ Heq) as [[e [-> ->]]|[e [-> ->]]]; [left|right]; by exists e.
Qed.

Lemma startswith_spec (s prefix : string) :
  Py.startswith s prefix = true ↔ ∃ post, s = prefix +:+ post.
Proof.
  revert s. induction prefix as [|p prefix IH]; intros s.
  - destruct s; (split; [intros _; by eexists|done]).
  - destruct s as [|c s]; cbn.
    + split; [done|]. by intros [post ?].
    + rewrite andb_true_iff, IH. split.
      * intros [Hc [post ->]]. apply Ascii.eqb_eq in Hc as ->. by exists post.
      * intros [post Heq]. rewrite str_app_cons in Heq. injection Heq as -> ->.
        split; [apply Ascii.eqb_refl|by exists post].
Qed.

Lemma endswith_unfold (s suffix : string) :
  Py.endswith s suffix =
    String.eqb s suffix ||
    match s with "" => false | String _ s' => Py.endswith s' suffix end.
Proof. by destruct s. Qed.

Lemma endswith_spec (s suffix : string) :
  Py.endswith s suffix = true ↔ ∃ pre, s = pre +:+ suffix.
Proof.
  induction s as [|c s IH]; rewrite endswith_unfold.
  - rewrite orb_false_r, String.eqb_eq. split.
    + intros <-. by exists "".
    + intros [[|??] ?]; [done|discriminate].
  - rewrite orb_true_iff, String.eqb_eq, IH. split.
    + intros [<-|[pre ->]]; [by exists ""|by exists (String c pre)].
    + intros [[|c' pre] Heq]; [by left|].
      rewrite str_app_cons in Heq. injection Heq as -> ->. right. by exists pre.
Qed.

Lemma contains_unfold (s needle : string) :
  Py.contains s needle =
    Py.startswith s needle ||
    match s with "" => false | String _ s' => Py.contains s' needle end.
Proof. by destruct s. Qed.

Lemma contains_spec (s needle : string) :
  Py.contains s needle = true ↔ ∃ pre post, s = pre +:+ needle +:+ post.
Proof.
  induction s as [|c s IH]; rewrite contains_unfold.
  - rewrite orb_false_r, startswith_spec. split.
    + intros [post ->]. by exists "", post.
    + intros [[|??] [post ?]]; [by exists post|discriminate].
  - rewrite orb_true_iff, startswith_spec, IH. split.
    + intros [[post ->]|[pre [post ->]]]; [by exists "", post|by exists (String c pre), post].
    + intros [[|c' pre] [post Heq]]; [left; by exists post|].
      rewrite str_app_cons in Heq. injection Heq as -> ->. right. by exists pre, post.
Qed.

Lemma chars_all_app (p : ascii → bool) (s1 s2 : string) :
  chars_all p (s1 +:+ s2) ↔ chars_all p s1 ∧ chars_all p s2.
Proof.
  induction s1 as [|c s1 IH]; [rewrite str_app_nil_l; cbn; tauto|].
  rewrite str_app_cons. cbn. rewrite IH. tauto.
Qed.

(** ** Facts about the matcher *)

Lemma star_spec (a : Re.atom) (s m s' : string) :
  (m, s') ∈ Re.star a s ↔ s = m +:+ s' ∧ chars_all (Re.atom_matches a) m.
Proof.
  revert m. induction s as [|c s IH]; intros m; cbn.
  - rewrite list_elem_of_singleton. split.
    + by intros [= -> ->].
    + intros [Heq _]. symmetry in Heq. by apply str_app_eq_nil in Heq as [-> ->].
  - destruct (Re.atom_matches a c) eqn:Hc.
    + rewrite elem_of_app, list_elem_of_fmap, list_elem_of_singleton. split.
      * intros [[[m0 s0] [[= -> ->] Hin]]|[= -> ->]]; [|done].
        apply IH in Hin as [-> ?]. by rewrite str_app_cons.
      * intros [Heq Hall]. destruct m as [|c' m].
        { right. by rewrite str_app_nil_l in Heq; subst. }
        rewrite str_app_cons in Heq. injection Heq as <- ->. destruct Hall as [_ Hall].
        left. exists (m, s'). split; [done|]. by apply IH.
    + rewrite list_elem_of_singleton. split.
      * by intros [= -> ->].
      * intros [Heq Hall]. destruct m as [|c' m].
        { by rewrite str_app_nil_l in Heq; subst. }
        rewrite str_app_cons in Heq. injection Heq as <- ->.
        destruct Hall as [Hall _]. congruence.
Qed.

Lemma run_sound (r : Re.regex) (s m s' : string) (g : list string) :
  (m, g, s') ∈ Re.run r s → s = m +:+ s' ∧ lang r m.
Proof.
  revert s m g s'. induction r as [|a|r1 IH1 r2 IH2|r IH|a|a|r IH]; intros s m g s'; cbn.
  - rewrite list_elem_of_singleton. by intros [= -> -> ->].
  - destruct s as [|c s]; [by rewrite elem_of_nil|].
    destruct (Re.atom_matches a c) eqn:Hc; [|by rewrite elem_of_nil].
    rewrite list_elem_of_singleton. intros [= -> -> ->]. split; [done|]. by exists c.
  - rewrite list_elem_of_bind. intros [[[m1 g1] s1] [Hin H1]].
    apply list_elem_of_bind in Hin as [[[m2 g2] s2] [Hin H2]].
    apply list_elem_of_singleton in Hin as [= -> -> ->].
    apply IH1 in H1 as [-> ?]. apply IH2 in H2 as [-> ?].
    split; [by rewrite str_app_assoc|]. by exists m1, m2.
  - rewrite elem_of_app, list_elem_of_singleton. intros [Hin|[= -> -> ->]].
    + apply IH in Hin as [-> ?]. auto.
    + auto.
  - rewrite list_elem_of_fmap. intros [[m0 s0] [[= -> -> ->] Hin]].
    by apply star_spec in Hin.
  - destruct s as [|c s]; [by rewrite elem_of_nil|].
    destruct (Re.atom_matches a c) eqn:Hc; [|by rewrite elem_of_nil].
    rewrite list_elem_of_fmap. intros [[m0 s0] [[= -> -> ->] Hin]].
    apply star_spec in Hin as [-> ?]. by rewrite str_app_cons.
  - rewrite list_elem_of_fmap. intros [[[m0 g0] s0] [[= -> -> ->] Hin]].
    by apply IH in Hin.
Qed.

Lemma run_complete (r : Re.regex) (m s' : string) :
  lang r m → ∃ g, (m, g, s') ∈ Re.run r (m +:+ s').
Proof.
  revert m s'. induction r as [|a|r1 IH1 r2 IH2|r IH|a|a|r IH]; intros m s'; cbn.
  - intros ->. exists []. by apply list_elem_of_singleton.
  - intros [c [-> Hc]]. rewrite str_app_cons, str_app_nil_l, Hc.
    exists []. by apply list_elem_of_singleton.
  - intros [m1 [m2 [-> [H1 H2]]]].
    destruct (IH1 m1 (m2 +:+ s') H1) as [g1 Hin1].
    destruct (IH2 m2 s' H2) as [g2 Hin2].
    exists (g1 ++ g2). rewrite str_app_assoc. apply list_elem_of_bind.
    exists (m1, g1, m2 +:+ s'). split; [|done].
    apply list_elem_of_bind. exists (m2, g2, s'). split; [|done].
    by apply list_elem_of_singleton.
  - intros [->|H].
    + exists []. apply elem_of_app. right. by apply list_elem_of_singleton.
    + destruct (IH m s' H) as [g Hin]. exists g. apply elem_of_app. by left.
  - intros Hall. exists []. apply list_elem_of_fmap. exists (m, s'). split; [done|].
    by apply star_spec.
  - intros [Hne Hall]. destruct m as [|c m]; [done|]. destruct Hall as [Hc Hall].
    rewrite str_app_cons, Hc. exists []. apply list_elem_of_fmap. exists (m, s').
    split; [done|]. by apply star_spec.
  - intros H. destruct (IH m s' H) as [g Hin]. exists (m :: g).
    apply list_elem_of_fmap. by exists (m, g, s').
Qed.

Lemma run_none (r : Re.regex) (s m post : string) :
  Re.run r s = [] → s = m +:+ post → ¬ lang r m.
Proof.
  intros Hrun -> Hm. destruct (run_complete r m post Hm) as [g Hin].
  rewrite Hrun in Hin. by apply elem_of_nil in Hin.
Qed.

Lemma search_from_Some (pos : nat) (r : Re.regex) (s : string) (M : Re.Match) :
  Re.search_from pos r s = Some M →
  ∃ pre post tl,
    s = pre +:+ Re.whole M +:+ post ∧
    Re.start M = pos + String.length pre ∧
    Re.run r (Re.whole M +:+ post) = (Re.whole M, Re.captures M, post) :: tl ∧
    ∀ pre' m' post', s = pre' +:+ m' +:+ post' → lang r m' →
      String.length pre ≤ String.length pre'.
Proof.
  revert pos. induction s as [|c s IH]; intros pos; cbn.
  - destruct (Re.run r "") as [|[[m g] s'] tl] eqn:Hrun; [done|].
    intros [= <-]. cbn.
    assert ((m, g, s') ∈ Re.run r "") as Hin by (rewrite Hrun; left).
    apply run_sound in Hin as [Heq _].
    exists "", s', tl. rewrite str_app_nil_l, <- Heq, Hrun. repeat split; cbn; lia.
  - destruct (Re.run r (String c s)) as [|[[m g] s'] tl] eqn:Hrun.
    + intros HM. destruct (IH _ HM) as (pre & post & tl & -> & Hst & Hr & Hleft).
      exists (String c pre), post, tl. repeat split; [cbn; lia|done|].
      intros [|c' pre'] m' post' Heq Hm'.
      * exfalso. exact (run_none r _ m' post' Hrun Heq Hm').
      * rewrite str_app_cons in Heq. injection Heq as -> Heq. cbn.
        apply le_n_S. by eapply Hleft.
    + intros [= <-]. cbn.
      assert ((m, g, s') ∈ Re.run r (String c s)) as Hin by (rewrite Hrun; left).
      apply run_sound in Hin as [Heq _].
      exists "", s', tl. rewrite str_app_nil_l, <- Heq, Hrun. repeat split; cbn; lia.
Qed.

Lemma search_from_None (pos : nat) (r : Re.regex) (s : string) :
  Re.search_from pos r s = None →
  ∀ pre m post, s = pre +:+ m +:+ post → ¬ lang r m.
Proof.
  revert pos. induction s as [|c s IH]; intros pos; cbn.
  - destruct (Re.run r "") as [|[[m g] s'] tl] eqn:Hrun; [|done].
    intros _ pre m post Heq. symmetry in Heq.
    apply str_app_eq_nil in Heq as [-> Heq]. symmetry in Heq.
    exact (run_none r _ m post Hrun Heq).
  - destruct (Re.run r (String c s)) as [|[[m g] s'] tl] eqn:Hrun; [|done].
    intros Hs [|c' pre] m post Heq.
    + exact (run_none r _ m post Hrun Heq).
    + rewrite str_app_cons in Heq. injection Heq as -> Heq. by eapply IH.
Qed.

Lemma search_first_match (r : Re.regex) (text : string) (M : Re.Match) :
  head_longest r → Re.search r text = Some M →
  first_match (lang r) text (Re.start M) (Re.whole M).
Proof.
  intros Hlong HM. apply search_from_Some in HM as (pre & post & tl & -> & Hst & Hr & Hleft).
  assert (lang r (Re.whole M)) as HL.
  { eapply (run_sound r _ _ post (Re.captures M)). rewrite Hr. left. }
  split; [by exists pre, post|].
  intros j m' (pre' & post' & Heq & <- & Hm').
  pose proof (Hleft _ _ _ Heq Hm') as Hle. rewrite Hst. cbn.
  destruct (decide (String.length pre' = String.length pre)) as [Hlen|]; [right|left; lia].
  split; [done|].
  assert (pre' = pre ∧ m' +:+ post' = Re.whole M +:+ post) as [-> Heq'].
  { destruct (str_app_eq_app _ _ _ _ Heq) as [[e [-> He]]|[e [-> He]]];
      rewrite str_length_app in Hlen;
      (destruct e; [|cbn in Hlen; lia]); rewrite str_app_nil_r;
      by rewrite str_app_nil_l in He. }
  destruct (run_complete r m' post' Hm') as [g' Hin]. rewrite Heq' in Hin.
  by eapply Hlong.
Qed.


(** The first way [a*] matches takes every leading character it can. *)
Lemma star_head (a : Re.atom) (s m s' : string) (tl : list (string * string)) :
  Re.star a s = (m, s') :: tl →
  s = m +:+ s' ∧ chars_all (Re.atom_matches a) m ∧
  (s' = "" ∨ ∃ c t, s' = String c t ∧ Re.atom_matches a c = false).
Proof.
  revert m tl. induction s as [|c s IH]; intros m tl; cbn.
  - intros [= <- <- <-]. repeat split. by left.
  - destruct (Re.atom_matches a c) eqn:Hc.
    + destruct (Re.star a s) as [|[m0 s0] tl0] eqn:Hs; cbn.
      * intros [= <- <- <-]. exfalso.
        assert (("", s) ∈ Re.star a s) as Hin by (by apply star_spec).
        rewrite Hs in Hin. by apply elem_of_nil in Hin.
      * intros [= <- <- <-]. destruct (IH _ _ eq_refl) as (-> & ? & ?).
        by rewrite str_app_cons.
    + intros [= <- <- <-]. repeat split. right. by exists c, s.
Qed.

Lemma maximal_longest (p : ascii → bool) (m s' m2 s2 : string) :
  m +:+ s' = m2 +:+ s2 → chars_all p m2 →
  (s' = "" ∨ ∃ c t, s' = String c t ∧ p c = false) →
  String.length m2 ≤ String.length m.
Proof.
  intros Heq Hall Hmax.
  destruct (str_app_eq_app _ _ _ _ Heq) as [[e [-> He]]|[e [-> He]]].
  - destruct e as [|c e]; [by rewrite str_app_nil_r|]. exfalso.
    apply chars_all_app in Hall as [_ [Hc _]].
    destruct Hmax as [->|(c' & t & -> & Hc')]; [done|].
    rewrite str_app_cons in He. injection He as -> _. congruence.
  - rewrite str_length_app. lia.
Qed.

Lemma star_head_longest (a : Re.atom) (s m s' : string) (tl : list (string * string)) :
  Re.star a s = (m, s') :: tl →
  ∀ m2 s2, (m2, s2) ∈ Re.star a s → String.length m2 ≤ String.length m.
Proof.
  intros Hs m2 s2 Hin. apply star_head in Hs as (-> & _ & Hmax).
  apply star_spec in Hin as [Heq Hall]. by eapply maximal_longest.
Qed.

Lemma plus_head_longest (a : Re.atom) : head_longest (Re.Plus a).
Proof.
  intros s m g s' tl. cbn. destruct s as [|c s]; [done|].
  destruct (Re.atom_matches a c); [|done].
  destruct (Re.star a s) as [|[m0 s0] tl0] eqn:Hs; [done|]. cbn.
  intros [= <- <- <- <-] m2 g2 s2 Hin.
  change ((m2, g2, s2) ∈ (λ '(m, s''), (String c m, [], s'')) <$> ((m0, s0) :: tl0)) in Hin.
  apply list_elem_of_fmap in Hin as [[m3 s3] [[= -> -> ->] Hin]].
  rewrite <- Hs in Hin. cbn. apply le_n_S. by eapply star_head_longest.
Qed.

Lemma bind_head {A B : Type} (f : A → list B) (l : list A) (y : B) (ys : list B) :
  l ≫= f = y :: ys →
  ∃ l1 x l2 ys', l = l1 ++ x :: l2 ∧ (∀ z, z ∈ l1 → f z = []) ∧ f x = y :: ys'.
Proof.
  induction l as [|x l IH]; csimpl; [done|].
  destruct (f x) as [|y0 ys0] eqn:Hfx; cbn.
  - intros Hl. destruct (IH Hl) as (l1 & x' & l2 & ys' & -> & Hnil & Hx').
    exists (x :: l1), x', l2, ys'. repeat split; [|done].
    intros z [->|Hz]%elem_of_cons; auto.
  - intros [= -> <-]. exists [], x, l, ys0. repeat split; [|done].
    intros z Hz. by apply elem_of_nil in Hz.
Qed.

Lemma seq_elem (r1 r2 : Re.regex) (s m s' : string) (g : list string) :
  (m, g, s') ∈ Re.run (Re.Seq r1 r2) s ↔
  ∃ m1 g1 s1 m2 g2,
    (m1, g1, s1) ∈ Re.run r1 s ∧ (m2, g2, s') ∈ Re.run r2 s1 ∧
    m = m1 +:+ m2 ∧ g = g1 ++ g2.
Proof.
  cbn. rewrite list_elem_of_bind. split.
  - intros [[[m1 g1] s1] [Hin H1]].
    apply list_elem_of_bind in Hin as [[[m2 g2] s2] [Hin H2]].
    apply list_elem_of_singleton in Hin as [= -> -> ->]. by exists m1, g1, s1, m2, g2.
  - intros (m1 & g1 & s1 & m2 & g2 & H1 & H2 & -> & ->).
    exists (m1, g1, s1). split; [|done]. apply list_elem_of_bind.
    exists (m2, g2, s'). split; [|done]. by apply list_elem_of_singleton.
Qed.

Lemma seq_head (r1 r2 : Re.regex) (s m s' : string) (g : list string)
    (tl : list (string * list string * string)) :
  Re.run (Re.Seq r1 r2) s = (m, g, s') :: tl →
  ∃ m1 g1 s1 m2 g2 tl2,
    (m1, g1, s1) ∈ Re.run r1 s ∧ Re.run r2 s1 = (m2, g2, s') :: tl2 ∧
    m = m1 +:+ m2 ∧ g = g1 ++ g2.
Proof.
  cbn. intros H.
  apply bind_head in H as (l1 & [[m1 g1] s1] & l2 & ys' & Hl & _ & Hx).
  apply bind_head in Hx as (k1 & [[m2 g2] s2] & k2 & ys2 & Hk & Hnil & [= <- <- <-]).
  destruct k1 as [|[[??]?] k1].
  - exists m1, g1, s1, m2, g2, k2. repeat split; [|done].
    rewrite Hl. apply elem_of_app. right. left.
  - exfalso. by specialize (Hnil _ (list_elem_of_here _ _)).
Qed.

(** *** The numeric patterns *)

Lemma lang_unsigned_core (m : string) :
  lang unsigned_core m ↔ decimal_number false m.
Proof.
  cbn -[Ascii.eqb]. split.
  - intros (ip & ? & -> & Hip & d & fp & -> & (c & -> & Hc) & Hfp).
    apply Ascii.eqb_eq in Hc as <-. exists "", ip, fp. by auto.
  - intros (sign & ip & fp & -> & [->|[? _]] & Hip & Hfp); [|done].
    exists ip, ("." +:+ fp). repeat split; try apply Hip.
    exists ".", fp. repeat split; try apply Hfp. by exists "."%char.
Qed.

Lemma lang_signed_core (m : string) :
  lang signed_core m ↔ decimal_number true m.
Proof.
  change (lang signed_core m) with
    (∃ m1 m2, m = m1 +:+ m2 ∧
       (m1 = "" ∨ ∃ c, m1 = String c "" ∧ Ascii.eqb "-" c = true) ∧
       lang unsigned_core m2).
  setoid_rewrite lang_unsigned_core. split.
  - intros (m1 & m2 & -> & Hsign & sg & ip & fp & -> & [->|[? _]] & Hip & Hfp); [|done].
    rewrite str_app_nil_l. exists m1, ip, fp. repeat split; try apply Hip; try apply Hfp.
    destruct Hsign as [->|(c & -> & Hc)]; [by left|].
    apply Ascii.eqb_eq in Hc as <-. by right.
  - intros (sign & ip & fp & -> & Hsign & Hip & Hfp).
    exists sign, (ip +:+ "." +:+ fp). repeat split.
    + destruct Hsign as [->|[_ ->]]; [by left|]. right. by exists "-"%char.
    + exists "", ip, fp. by auto.
Qed.

Lemma digits_dot_unique (m1 m1' t t' : string) :
  m1 +:+ String "." t = m1' +:+ String "." t' →
  chars_all Re.is_digit m1 → chars_all Re.is_digit m1' →
  m1 = m1' ∧ t = t'.
Proof.
  intros Heq H1 H1'.
  destruct (str_app_eq_app _ _ _ _ Heq) as [[e [-> He]]|[e [-> He]]];
    (destruct e as [|c e];
     [rewrite str_app_nil_l in He; injection He as ->; by rewrite str_app_nil_r|]);
    exfalso; rewrite str_app_cons in He; injection He as <- _.
  - by apply chars_all_app in H1' as [_ [? _]].
  - by apply chars_all_app in H1 as [_ [? _]].
Qed.

Lemma atom_elem (a : Re.atom) (s m s' : string) (g : list string) :
  (m, g, s') ∈ Re.run (Re.Atom a) s →
  ∃ c, Re.atom_matches a c = true ∧ s = String c s' ∧ m = String c "" ∧ g = [].
Proof.
  cbn. destruct s as [|c s]; [by rewrite elem_of_nil|].
  destruct (Re.atom_matches a c) eqn:Hc; [|by rewrite elem_of_nil].
  rewrite list_elem_of_singleton. intros [= -> -> ->]. by exists c.
Qed.

Lemma opt_elem (r : Re.regex) (s m s' : string) (g : list string) :
  (m, g, s') ∈ Re.run (Re.Opt r) s →
  (m, g, s') ∈ Re.run r s ∨ (m = "" ∧ g = [] ∧ s' = s).
Proof.
  cbn [Re.run]. rewrite elem_of_app, list_elem_of_singleton.
  intros [?|[= -> -> ->]]; auto.
Qed.

Lemma head_elem {A : Type} (l tl : list A) (x : A) : l = x :: tl → x ∈ l.
Proof. intros ->. left. Qed.

Lemma unsigned_core_head_longest : head_longest unsigned_core.
Proof.
  intros s m g s' tl Hrun m' g' s2 Hin.
  apply seq_head in Hrun as (ip & g1 & s1 & m2 & g2 & tl2 & Hip & Hrun2 & -> & ->).
  apply seq_head in Hrun2 as (d & gd & sd & fp & gf & tl3 & Hd & Hfp & -> & ->).
  apply seq_elem in Hin as (ip' & g1' & s1' & m2' & g2' & Hip' & Hin2 & -> & ->).
  apply seq_elem in Hin2 as (d' & gd' & sd' & fp' & gf' & Hd' & Hfp' & -> & ->).
  apply atom_elem in Hd as (c & Hc & -> & -> & ->).
  apply atom_elem in Hd' as (c' & Hc' & -> & -> & ->).
  apply (Ascii.eqb_eq "." c) in Hc as <-. apply (Ascii.eqb_eq "." c') in Hc' as <-.
  apply run_sound in Hip as [-> [_ Hall]]. apply run_sound in Hip' as [Heq [_ Hall']].
  destruct (digits_dot_unique _ _ _ _ Heq Hall Hall') as [-> ->].
  pose proof (plus_head_longest _ _ _ _ _ _ Hfp _ _ _ Hfp') as Hle.
  rewrite !str_length_app. lia.
Qed.

Lemma unsigned_core_starts_digit (s m s' : string) (g : list string) :
  (m, g, s') ∈ Re.run unsigned_core s → ∃ c t, s = String c t ∧ Re.is_digit c = true.
Proof.
  intros Hin. apply seq_elem in Hin as (ip & g1 & s1 & m2 & g2 & Hip & _).
  apply run_sound in Hip as [-> [Hne Hall]].
  destruct ip as [|c ip]; [done|]. destruct Hall as [Hc _].
  exists c, (ip +:+ s1). by rewrite str_app_cons.
Qed.

Lemma signed_core_head_longest : head_longest signed_core.
Proof.
  intros s m g s' tl Hrun m' g' s2 Hin.
  apply seq_head in Hrun as (sg & g1 & s1 & m2 & g2 & tl2 & Hsg & Hrun2 & -> & ->).
  apply seq_elem in Hin as (sg' & g1' & s1' & m2' & g2' & Hsg' & Hin2 & -> & ->).
  pose proof (head_elem _ _ _ Hrun2) as Hin1.
  apply opt_elem in Hsg as [Hsg|(-> & -> & ->)];
  apply opt_elem in Hsg' as [Hsg'|(-> & -> & ->)].
  - apply atom_elem in Hsg as (c & _ & -> & -> & ->).
    apply atom_elem in Hsg' as (c' & _ & [= -> ->] & -> & ->).
    pose proof (unsigned_core_head_longest _ _ _ _ _ Hrun2 _ _ _ Hin2).
    rewrite !str_length_app. lia.
  - apply atom_elem in Hsg as (c & Hc & -> & -> & ->).
    apply (Ascii.eqb_eq "-" c) in Hc as <-.
    by apply unsigned_core_starts_digit in Hin2 as (c & t & [= <- _] & ?).
  - apply atom_elem in Hsg' as (c & Hc & -> & -> & ->).
    apply (Ascii.eqb_eq "-" c) in Hc as <-.
    by apply unsigned_core_starts_digit in Hin1 as (c & t & [= <- _] & ?).
  - pose proof (unsigned_core_head_longest _ _ _ _ _ Hrun2 _ _ _ Hin2).
    rewrite !str_length_app. lia.
Qed.

Lemma group_head_longest (r : Re.regex) : head_longest r → head_longest (Re.Group r).
Proof.
  intros Hr s m g s' tl. cbn.
  destruct (Re.run r s) as [|[[m0 g0] s0] tl0] eqn:Hrun; [done|].
  intros [= <- <- <- <-] m2 g2 s2 Hin.
  change ((m2, g2, s2) ∈ (λ '(m, g, s'), (m, m :: g, s')) <$> ((m0, g0, s0) :: tl0)) in Hin.
  apply list_elem_of_fmap in Hin as [[[m3 g3] s3] [[= -> -> ->] Hin]].
  rewrite <- Hrun in Hin. by eapply Hr.
Qed.

Lemma first_match_ext (L L' : string → Prop) (text : string) (i : nat) (m : string) :
  (∀ x, L x ↔ L' x) → first_match L text i m → first_match L' text i m.
Proof.
  intros HL [(pre & post & Heq & Hlen & Hm) Hfirst]. split.
  - exists pre, post. repeat split; [done..|]. by apply HL.
  - intros j m' (pre' & post' & Heq' & Hlen' & Hm'). apply Hfirst.
    exists pre', post'. repeat split; [done..|]. by apply HL.
Qed.

(** What [re.search] answers for a pattern whose first way is a longest
    one: the first match of its language, or nothing when the language
    does not occur. *)
Lemma search_spec (r : Re.regex) (L : string → Prop) (text : string) :
  head_longest r → (∀ x, lang r x ↔ L x) →
  match Re.search r text with
  | Some M => first_match L text (Re.start M) (Re.group M 0)
  | None => ¬ ∃ i m, occurs_at L text i m
  end.
Proof.
  intros Hlong HL. destruct (Re.search r text) as [M|] eqn:Hs.
  - eapply first_match_ext; [exact HL|]. by apply search_first_match.
  - intros (i & m & pre & post & Heq & _ & Hm).
    eapply (search_from_None _ _ _ Hs); [exact Heq|]. by apply HL.
Qed.

Lemma signed_decimal_re_spec (text : string) :
  match Re.search signed_decimal_re text with
  | Some M => first_match (decimal_number true) text (Re.start M) (Re.group M 0)
  | None => ¬ ∃ i m, occurs_at (decimal_number true) text i m
  end.
Proof.
  apply search_spec.
  - apply group_head_longest, signed_core_head_longest.
  - apply lang_signed_core.
Qed.

Lemma decimal_re_spec (text : string) :
  match Re.search decimal_re text with
  | Some M => first_match (decimal_number false) text (Re.start M) (Re.group M 0)
  | None => ¬ ∃ i m, occurs_at (decimal_number false) text i m
  end.
Proof.
  apply search_spec.
  - apply group_head_longest, unsigned_core_head_longest.
  - apply lang_unsigned_core.
Qed.




(** *** The state pattern *)

Lemma lit_elem (w s m s' : string) (g : list string) :
  (m, g, s') ∈ Re.run (Re.lit w) s → m = w ∧ g = [] ∧ s = w +:+ s'.
Proof.
  revert s m g. induction w as [|c w IH]; intros s m g.
  - cbn. rewrite list_elem_of_singleton. by intros [= -> -> ->].
  - change (Re.lit (String c w)) with (Re.Seq (Re.Atom (Re.Chr c)) (Re.lit w)).
    intros (m1 & g1 & s1 & m2 & g2 & H1 & H2 & -> & ->)%seq_elem.
    apply atom_elem in H1 as (c' & Hc & -> & -> & ->).
    apply (Ascii.eqb_eq c c') in Hc as <-.
    apply IH in H2 as (-> & -> & ->). by rewrite !str_app_cons.
Qed.

Lemma lang_lit (w : string) : lang (Re.lit w) w.
Proof.
  induction w as [|c w IH]; [done|].
  exists (String c ""), w. repeat split; [|done].
  exists c. split; [done|]. apply Ascii.eqb_refl.
Qed.

Lemma lang_onu_state_marker : lang onu_state_re "ONU state: ".
Proof.
  exists "ONU state: ", "". repeat split. apply (lang_lit "ONU state: ").
Qed.

Lemma onu_state_re_Some (text : string) (M : Re.Match) :
  Re.search onu_state_re text = Some M → state_line text (Re.group M 1).
Proof.
  intros (pre & post & tl & -> & _ & Hrun & Hleft)%search_from_Some.
  apply seq_head in Hrun as (m1 & g1 & s1 & m2 & g2 & tl2 & H1 & H2 & Hw & Hg).
  apply lit_elem in H1 as (-> & -> & _).
  cbn [Re.run] in H2.
  destruct (Re.star Re.Dot s1) as [|[code rest] tl3] eqn:Hstar; [done|].
  injection H2 as <- <- <- <-.
  apply star_head in Hstar as (-> & Hall & Hmax).
  unfold Re.group. rewrite Hg, Hw in *. cbn [app nth].
  exists pre, rest. rewrite str_app_assoc. repeat split; [| done |].
  - intros pre' post' Heq. apply (Hleft pre' "ONU state: " post'); [|apply lang_onu_state_marker].
    by rewrite <- Heq, str_app_assoc.
  - destruct Hmax as [->|(c & t & -> & Hc)]; [by left|right].
    exists t. f_equal. cbn in Hc. apply negb_false_iff in Hc.
    by apply (Ascii.eqb_eq c Re.newline) in Hc.
Qed.

Lemma onu_state_re_None (text : string) :
  Re.search onu_state_re text = None → ¬ occurs "ONU state: " text.
Proof.
  intros Hs (pre & post & Heq).
  by apply (search_from_None _ _ _ Hs pre "ONU state: " post Heq), lang_onu_state_marker.
Qed.

Lemma onu_state_re_occurs (text : string) :
  occurs "ONU state: " text → is_Some (Re.search onu_state_re text).
Proof.
  intros Hocc. destruct (Re.search onu_state_re text) eqn:Hs; [done|].
  by apply onu_state_re_None in Hs.
Qed.

(** C1.  The state table holds the letter O in the key of ordinal 5: the
    code 05 is no key of it, and a response reporting state 05 publishes
    the fallback 0, where 03 publishes 3 and O5 publishes 5. *)
Theorem onu_state_05_falls_back :
  onu_state_mapping !! "05" = None ∧
  onu_state_mapping !! "O5" = Some 5%Z ∧
  parse_result "192.168.1.1" "diag gpon get onu-state" onu_state_gauge
    ("ONU state: 05" +:+ LF +:+ "> ") =
    Some (mkObservation onu_state_gauge "192.168.1.1" (PyInt 0)) ∧
  parse_result "192.168.1.1" "diag gpon get onu-state" onu_state_gauge
    ("ONU state: 03" +:+ LF +:+ "> ") =
    Some (mkObservation onu_state_gauge "192.168.1.1" (PyInt 3)).
Proof. by vm_compute. Qed.

(** C2, as stated, fails: a response without the marker publishes no
    state at all. *)
Lemma onu_state_without_marker_emits_nothing :
  parse_result "192.168.1.1" "diag gpon get onu-state" onu_state_gauge
    ("command not found" +:+ LF +:+ "> ") = None.
Proof. by vm_compute. Qed.

(** C2, amended.  A response that holds the marker "ONU state: " publishes
    exactly one state observation: the table's ordinal of the text after
    the first marker up to the end of its line when that text is a key of
    the table, the fallback 0 otherwise.  A response without the marker
    publishes nothing. *)
Theorem onu_state_emits_when_marked (hostname text : string) :
  (occurs "ONU state: " text →
   ∃ code, state_line text code ∧
     parse_result hostname "diag gpon get onu-state" onu_state_gauge text =
       Some (mkObservation onu_state_gauge hostname
               (PyInt (default 0%Z (onu_state_mapping !! code))))) ∧
  (¬ occurs "ONU state: " text →
   parse_result hostname "diag gpon get onu-state" onu_state_gauge text = None).
Proof.
  change (parse_result hostname "diag gpon get onu-state" onu_state_gauge text)
    with (match Re.search onu_state_re text with
          | Some state_code =>
              Some (mkObservation onu_state_gauge hostname
                      (PyInt (onu_state_mapping_get (Re.group state_code 1))))
          | None => None
          end).
  split.
  - intros [M HM]%onu_state_re_occurs. rewrite HM.
    exists (Re.group M 1). split; [by apply onu_state_re_Some|done].
  - intros Hno. destruct (Re.search onu_state_re text) as [M|] eqn:HM; [|done].
    destruct Hno. apply onu_state_re_Some in HM as (pre & post & -> & _).
    by exists pre, (Re.group M 1 +:+ post).
Qed.

Lemma onu_state_emits_when_marked_witness :
  (∃ code, state_line ("ONU state: 99" +:+ LF +:+ "> ") code ∧
     parse_result "192.168.1.1" "diag gpon get onu-state" onu_state_gauge
       ("ONU state: 99" +:+ LF +:+ "> ") =
       Some (mkObservation onu_state_gauge "192.168.1.1"
               (PyInt (default 0%Z (onu_state_mapping !! code))))) ∧
  parse_result "192.168.1.1" "diag gpon get onu-state" onu_state_gauge "" = None.
Proof.
  split.
  - apply (onu_state_emits_when_marked "192.168.1.1" ("ONU state: 99" +:+ LF +:+ "> ")).
    by exists "", ("99" +:+ LF +:+ "> ").
  - apply (onu_state_emits_when_marked "192.168.1.1" "").
    intros ([|??] & post & Heq); discriminate Heq.
Defined.

(** ** The prompt scanner *)

Lemma prompt_like_spec (buffer : string) :
  prompt_like buffer = true ↔ prompt_terminated buffer.
Proof.
  unfold prompt_like, prompt_terminated. rewrite !orb_true_iff, !endswith_spec. split.
  - intros [[[[[[pre ->]|[pre ->]]|[pre ->]]|[pre ->]]|[pre ->]]|[pre ->]].
    + exists pre, "$". auto.
    + exists pre, "#". auto.
    + exists pre, ">". auto.
    + exists pre, "$". auto.
    + exists pre, "#". auto.
    + exists pre, ">". auto.
  - intros (pre & c & [->|[->| ->]] & [->| ->]); eauto 10.
Qed.

Lemma prompt_like_false (buffer : string) :
  prompt_like buffer = false ↔ ¬ prompt_terminated buffer.
Proof. rewrite <- prompt_like_spec. by destruct (prompt_like buffer). Qed.

Lemma is_empty_spec (s : string) : Py.is_empty s = true ↔ s = "".
Proof. by destruct s. Qed.

Lemma wait_for_read_cons (w : World) (ev : ReadEvent) (rest : list ReadEvent) :
  incoming w = ev :: rest →
  wait_for_read w =
    (match result ev with
     | Chunk data => Return data
     | ReadTimeout => Raise TimeoutError
     | ReadRaise => Raise Error
     end, read_one ev w).
Proof.
  intros Hin. unfold wait_for_read, read_one. rewrite Hin. by destruct (result ev).
Qed.

(** One turn of the loop, by what the read does. *)
Lemma body_closed (buffer : string) (w : World) :
  incoming w = [] → wait_for_prompt_body buffer w = (Return (Leave buffer), w).
Proof.
  intros Hin. unfold wait_for_prompt_body, try_except, mbind, M_bind, bind, wait_for_read.
  by rewrite Hin.
Qed.

Lemma body_read (buffer : string) (w : World) (ev : ReadEvent) (rest : list ReadEvent) :
  incoming w = ev :: rest →
  wait_for_prompt_body buffer w =
    (match result ev with
     | Chunk data =>
         if Py.is_empty data then Return (Leave buffer)
         else if prompt_like (buffer +:+ data) then Return (Leave (buffer +:+ data))
         else Return (Continue (buffer +:+ data))
     | ReadTimeout => Return (Continue buffer)
     | ReadRaise => Raise Error
     end, read_one ev w).
Proof.
  intros Hin. unfold wait_for_prompt_body, try_except, mbind, M_bind, bind.
  rewrite (wait_for_read_cons _ _ _ Hin).
  destruct (result ev) as [data| |]; [|done..].
  destruct (Py.is_empty data); [done|]. by destruct (prompt_like _).
Qed.

Lemma loop_unfold (fuel : nat) (timeout start_time : Q) (buffer : string) (w : World) :
  wait_for_prompt_loop (S fuel) timeout start_time buffer w =
    if Qlt_le_dec (clock w - start_time) timeout then
      match wait_for_prompt_body buffer w with
      | (Return (Continue buffer'), w') =>
          wait_for_prompt_loop fuel timeout start_time buffer' w'
      | (Return (Leave buffer'), w') => (Return buffer', w')
      | (Raise e, w') => (Raise e, w')
      end
    else (Return buffer, w).
Proof.
  cbn [wait_for_prompt_loop]. unfold mbind, M_bind, bind, time_time.
  destruct (Qlt_le_dec _ _); [|done].
  by destruct (wait_for_prompt_body buffer w) as [[[?|?]|?] ?].
Qed.

Lemma incoming_read_one (ev : ReadEvent) (w : World) :
  incoming (read_one ev w) = tail (incoming w).
Proof. done. Qed.

(** Fuel above the number of reads left is never used up. *)
Lemma loop_fuel (fuel fuel' : nat) (timeout start_time : Q) (buffer : string) (w : World) :
  length (incoming w) < fuel → length (incoming w) < fuel' →
  wait_for_prompt_loop fuel timeout start_time buffer w =
  wait_for_prompt_loop fuel' timeout start_time buffer w.
Proof.
  revert fuel' buffer w. induction fuel as [|fuel IH]; intros [|fuel'] buffer w Hf Hf'; try lia.
  rewrite !loop_unfold. destruct (Qlt_le_dec _ _); [|done].
  destruct (incoming w) as [|ev rest] eqn:Hin.
  - by rewrite (body_closed _ _ Hin).
  - rewrite (body_read _ _ _ _ Hin).
    assert (length (incoming (read_one ev w)) = length rest) as Hlen
      by (by rewrite incoming_read_one, Hin).
    cbn in Hf, Hf'.
    destruct (result ev) as [data| |]; [|apply IH; lia|done].
    destruct (Py.is_empty data); [done|]. destruct (prompt_like _); [done|].
    apply IH; lia.
Qed.

Lemma read_all_app (evs1 evs2 : list ReadEvent) (w : World) :
  read_all (evs1 ++ evs2) w = read_all evs2 (read_all evs1 w).
Proof. apply fold_left_app. Qed.

Lemma read_all_incoming (pre rest : list ReadEvent) (w : World) :
  incoming w = pre ++ rest → incoming (read_all pre w) = rest.
Proof.
  revert w. induction pre as [|ev pre IH]; intros w Hin; [done|].
  cbn. apply IH. by rewrite incoming_read_one, Hin.
Qed.

Lemma read_all_clock (pre : list ReadEvent) (w : World) :
  (clock (read_all pre w) == clock w + duration pre)%Q.
Proof.
  revert w. induction pre as [|ev pre IH]; intros w; cbn.
  - lra.
  - rewrite IH. cbn. lra.
Qed.

Lemma read_all_trace (pre : list ReadEvent) (w : World) :
  trace (read_all pre w) = trace w ++ map (λ ev, Received (result ev)) pre.
Proof.
  revert w. induction pre as [|ev pre IH]; intros w; cbn.
  - by rewrite app_nil_r.
  - rewrite IH. cbn. by rewrite <- app_assoc.
Qed.

Lemma chunks_app (evs1 evs2 : list ReadEvent) :
  chunks (evs1 ++ evs2) = chunks evs1 +:+ chunks evs2.
Proof.
  induction evs1 as [|ev evs1 IH]; [done|]. cbn. by rewrite IH, str_app_assoc.
Qed.

Lemma duration_app (evs1 evs2 : list ReadEvent) :
  (duration (evs1 ++ evs2) == duration evs1 + duration evs2)%Q.
Proof.
  induction evs1 as [|ev evs1 IH]; cbn; [lra|]. rewrite IH. lra.
Qed.

Lemma waits_ext (timeout spent spent' : Q) (buffer : string) (evs : list ReadEvent) :
  (spent == spent')%Q → waits timeout spent buffer evs → waits timeout spent' buffer evs.
Proof.
  revert spent spent' buffer. induction evs as [|ev evs IH]; intros spent spent' buffer Heq; [done|].
  cbn. intros [Hlt Hrest]. split; [lra|].
  assert (spent + elapsed ev == spent' + elapsed ev)%Q as Heq' by lra.
  destruct (result ev); [|by eapply IH|done].
  destruct Hrest as (? & ? & ?). repeat split; [done..|by eapply IH].
Qed.

(** Through a run of reads that keeps the scan open, the loop goes on:
    it reaches the loop test again with the texts gathered and the reads
    taken. *)
Lemma loop_waits (pre : list ReadEvent) (fuel : nat) (timeout start_time spent : Q)
    (buffer : string) (w : World) (rest : list ReadEvent) :
  incoming w = pre ++ rest →
  (clock w - start_time == spent)%Q →
  waits timeout spent buffer pre →
  length (incoming w) < fuel →
  wait_for_prompt_loop fuel timeout start_time buffer w =
  wait_for_prompt_loop (fuel - length pre) timeout start_time
    (buffer +:+ chunks pre) (read_all pre w).
Proof.
  revert fuel spent buffer w.
  induction pre as [|ev pre IH]; intros fuel spent buffer w Hin Hclock Hwaits Hfuel.
  - cbn. by rewrite str_app_nil_r, Nat.sub_0_r.
  - destruct fuel as [|fuel]; [lia|].
    destruct Hwaits as [Hlt Hwaits].
    rewrite loop_unfold. destruct (Qlt_le_dec _ _) as [_|Hge]; [|lra].
    rewrite (body_read _ _ _ _ Hin).
    assert (incoming (read_one ev w) = pre ++ rest) as Hin'
      by (by rewrite incoming_read_one, Hin).
    assert (clock (read_one ev w) - start_time == spent + elapsed ev)%Q as Hclock'
      by (cbn; lra).
    assert (length (incoming (read_one ev w)) < fuel) as Hfuel'.
    { rewrite Hin'. rewrite Hin in Hfuel. cbn in Hfuel. lia. }
    cbn [length chunks read_all fold_left]. unfold chunk_text.
    replace (S fuel - S (length pre)) with (fuel - length pre) by lia.
    destruct (result ev) as [data| |]; [| |done].
    + destruct Hwaits as (Hne & Hnot & Hwaits).
      destruct (Py.is_empty data) eqn:Hempty; [by apply is_empty_spec in Hempty|].
      apply prompt_like_false in Hnot. rewrite Hnot.
      rewrite (IH _ _ _ _ Hin' Hclock' Hwaits Hfuel'). by rewrite str_app_assoc.
    + rewrite (IH _ _ _ _ Hin' Hclock' Hwaits Hfuel'). by rewrite str_app_nil_l.
Qed.

Lemma wait_for_prompt_unfold (timeout : Q) (w : World) :
  wait_for_prompt timeout w =
    match wait_for_prompt_loop (S (length (incoming w))) timeout (clock w) "" w with
    | (Return buffer, w') => (Return buffer, w')
    | (Raise e, w') => (Return "", w')
    end.
Proof.
  unfold wait_for_prompt, try_except, mbind, M_bind, bind, time_time. 
  by destruct (wait_for_prompt_loop _ _ _ _ _) as [[?|?] ?].
Qed.

(** The scan as far as a run of reads keeps it open. *)
Lemma wait_for_prompt_waits (timeout : Q) (w : World) (pre rest : list ReadEvent) :
  incoming w = pre ++ rest →
  waits timeout 0 "" pre →
  wait_for_prompt timeout w =
    match wait_for_prompt_loop (S (length rest)) timeout (clock w)
            (chunks pre) (read_all pre w) with
    | (Return buffer, w') => (Return buffer, w')
    | (Raise e, w') => (Return "", w')
    end.
Proof.
  intros Hin Hwaits. rewrite wait_for_prompt_unfold.
  rewrite (loop_waits pre _ timeout (clock w) 0 "" w rest Hin); [|lra|done|lia].
  rewrite str_app_nil_l. rewrite Hin, length_app.
  by replace (S (length pre + length rest) - length pre) with (S (length rest)) by lia.
Qed.

Lemma waits_app (timeout spent : Q) (buffer : string) (evs1 evs2 : list ReadEvent) :
  waits timeout spent buffer evs1 →
  waits timeout (spent + duration evs1) (buffer +:+ chunks evs1) evs2 →
  waits timeout spent buffer (evs1 ++ evs2).
Proof.
  revert spent buffer. induction evs1 as [|ev evs1 IH]; intros spent buffer H1 H2.
  - cbn in *. rewrite str_app_nil_r in H2. eapply waits_ext; [|exact H2]. lra.
  - destruct H1 as [Hlt H1]. cbn [waits app]. split; [done|].
    cbn [duration chunks] in H2. unfold chunk_text in H2.
    destruct (result ev) as [data| |]; [| |done].
    + destruct H1 as (? & ? & H1). repeat split; [done..|]. apply IH; [done|].
      rewrite str_app_assoc. eapply waits_ext; [|exact H2]. lra.
    + apply IH; [done|]. rewrite str_app_nil_l in H2.
      eapply waits_ext; [|exact H2]. lra.
Qed.

(** Wherever the loop ends, it has taken some of the reads in order and
    nothing else has changed; what it returns is the buffer with their
    texts, and the only exception it raises is a failed read's. *)
Lemma loop_reads (fuel : nat) (timeout start_time : Q) (buffer : string) (w : World) :
  ∃ r k,
    wait_for_prompt_loop fuel timeout start_time buffer w =
      (r, read_all (take k (incoming w)) w) ∧
    match r with
    | Return b => b = buffer +:+ chunks (take k (incoming w))
    | Raise e => e = Error
    end.
Proof.
  revert buffer w. induction fuel as [|fuel IH]; intros buffer w.
  { exists (Return buffer), 0. cbn. by rewrite str_app_nil_r. }
  rewrite loop_unfold. destruct (Qlt_le_dec _ _).
  2:{ exists (Return buffer), 0. cbn. by rewrite str_app_nil_r. }
  destruct (incoming w) as [|ev rest] eqn:Hin.
  { rewrite (body_closed _ _ Hin). exists (Return buffer), 0. cbn. by rewrite str_app_nil_r. }
  rewrite (body_read _ _ _ _ Hin).
  assert (incoming (read_one ev w) = rest) as Hin'
    by (by rewrite incoming_read_one, Hin).
  destruct (result ev) as [data| |] eqn:Hev.
  - destruct (Py.is_empty data) eqn:Hempty.
    { apply is_empty_spec in Hempty as ->. exists (Return buffer), 1.
      cbn. unfold chunk_text. by rewrite Hev, take_0, !str_app_nil_r. }
    destruct (prompt_like _).
    { exists (Return (buffer +:+ data)), 1.
      cbn. unfold chunk_text. by rewrite Hev, take_0, !str_app_nil_r. }
    destruct (IH (buffer +:+ data) (read_one ev w)) as (r & k & -> & Hr).
    exists r, (S k). rewrite Hin' in *. split; [done|].
    destruct r; [|done]. cbn. unfold chunk_text. by rewrite Hev, <- str_app_assoc.
  - destruct (IH buffer (read_one ev w)) as (r & k & -> & Hr).
    exists r, (S k). rewrite Hin' in *. split; [done|].
    destruct r; [|done]. cbn. unfold chunk_text. by rewrite Hev, str_app_nil_l.
  - exists (Raise Error), 1. cbn. by rewrite take_0.
Qed.

(** The scanner always returns: a buffer, after some of the reads. *)
Lemma wait_for_prompt_reads (timeout : Q) (w : World) :
  ∃ buffer k,
    wait_for_prompt timeout w = (Return buffer, read_all (take k (incoming w)) w) ∧
    (buffer = chunks (take k (incoming w)) ∨ buffer = "").
Proof.
  rewrite wait_for_prompt_unfold.
  destruct (loop_reads (S (length (incoming w))) timeout (clock w) "" w)
    as (r & k & -> & Hr).
  destruct r as [b|e].
  - exists b, k. split; [done|]. left. by rewrite str_app_nil_l in Hr.
  - exists "", k. auto.
Qed.

Lemma read_all_snoc (pre : list ReadEvent) (ev : ReadEvent) (w : World) :
  read_all (pre ++ [ev]) w = read_one ev (read_all pre w).
Proof. by rewrite read_all_app. Qed.

(** C4.  While time remains and the reads so far have left the buffer not
    ending like a prompt, the scanner keeps reading.  At the first read
    after which the buffer ends with [$], [#] or [>], or one of them and
    a space, it returns the buffer at once and leaves every later read
    untaken; after a read that leaves the buffer ending otherwise it
    does not return but takes the next read as well. *)
Theorem prompt_scanner_returns_at_prompt (timeout : Q) (w : World)
    (pre : list ReadEvent) (dt : Q) (data : string) (rest : list ReadEvent) :
  incoming w = pre ++ mkRead dt (Chunk data) :: rest →
  waits timeout 0 "" pre →
  (duration pre < timeout)%Q →
  data ≠ "" →
  (prompt_terminated (chunks pre +:+ data) →
   wait_for_prompt timeout w =
     (Return (chunks pre +:+ data), read_all (pre ++ [mkRead dt (Chunk data)]) w) ∧
   incoming (read_all (pre ++ [mkRead dt (Chunk data)]) w) = rest) ∧
  (¬ prompt_terminated (chunks pre +:+ data) →
   (duration pre + dt < timeout)%Q →
   ∀ ev' rest', rest = ev' :: rest' →
   ∃ r k, wait_for_prompt timeout w =
            (r, read_all (pre ++ mkRead dt (Chunk data) :: ev' :: take k rest') w)).
Proof.
  intros Hin Hwaits Htime Hdata. split.
  - intros Hterm. split.
    + rewrite (wait_for_prompt_waits _ _ _ _ Hin Hwaits), loop_unfold.
      pose proof (read_all_clock pre w) as Hclock.
      destruct (Qlt_le_dec _ _) as [_|Hge]; [|lra].
      rewrite (body_read _ _ _ _ (read_all_incoming _ _ _ Hin)). cbn [result].
      destruct (Py.is_empty data) eqn:Hempty; [by apply is_empty_spec in Hempty|].
      apply prompt_like_spec in Hterm. by rewrite Hterm, read_all_snoc.
    + apply read_all_incoming. by rewrite <- app_assoc.
  - intros Hnot Htime' ev' rest' ->.
    assert (waits timeout 0 "" (pre ++ [mkRead dt (Chunk data)])) as Hwaits'.
    { apply waits_app; [done|]. cbn. rewrite str_app_nil_l. repeat split; [lra|done..]. }
    assert (incoming w = (pre ++ [mkRead dt (Chunk data)]) ++ ev' :: rest') as Hin'
      by (by rewrite <- app_assoc).
    rewrite (wait_for_prompt_waits _ _ _ _ Hin' Hwaits'), loop_unfold.
    pose proof (read_all_clock (pre ++ [mkRead dt (Chunk data)]) w) as Hclock.
    rewrite duration_app in Hclock. cbn [duration elapsed] in Hclock.
    destruct (Qlt_le_dec _ _) as [_|Hge]; [|lra].
    rewrite (body_read _ _ _ _ (read_all_incoming _ _ _ Hin')).
    set (W := read_all (pre ++ [mkRead dt (Chunk data)]) w).
    assert (incoming (read_one ev' W) = rest') as Hrest.
    { rewrite incoming_read_one. unfold W. by rewrite (read_all_incoming _ _ _ Hin'). }
    assert (∀ k, read_all (pre ++ mkRead dt (Chunk data) :: ev' :: take k rest') w =
                 read_all (take k rest') (read_one ev' W)) as Hall.
    { intros k. unfold W.
      by rewrite (cons_middle _ pre), app_assoc, read_all_app. }
    assert (∀ b, ∃ r k,
              match wait_for_prompt_loop (length (ev' :: rest')) timeout (clock w) b
                      (read_one ev' W) with
              | (Return buffer, w') => (Return buffer, w')
              | (Raise e, w') => (Return "", w')
              end = (r, read_all (pre ++ mkRead dt (Chunk data) :: ev' :: take k rest') w))
      as Hloop.
    { intros b.
      destruct (loop_reads (length (ev' :: rest')) timeout (clock w) b (read_one ev' W))
        as (r & k & -> & _).
      rewrite Hrest. setoid_rewrite Hall. destruct r; eauto. }
    destruct (result ev') as [data'| |].
    + destruct (Py.is_empty data').
      { exists (Return (chunks (pre ++ [mkRead dt (Chunk data)]))), 0.
        by rewrite Hall, take_0. }
      destruct (prompt_like _); [|apply Hloop].
      eexists _, 0. by rewrite Hall, take_0.
    + apply Hloop.
    + exists (Return ""), 0. by rewrite Hall, take_0.
Qed.

Lemma prompt_scanner_returns_at_prompt_witness :
  (wait_for_prompt 10 prompt_world =
     (Return "login: $ ",
      read_all [mkRead 0.5 (Chunk "login"); mkRead 1 ReadTimeout;
                mkRead 0.5 (Chunk ": $ ")] prompt_world) ∧
   incoming (read_all [mkRead 0.5 (Chunk "login"); mkRead 1 ReadTimeout;
                       mkRead 0.5 (Chunk ": $ ")] prompt_world) =
     [mkRead 0.25 (Chunk "more")]) ∧
  (∃ r k, wait_for_prompt 10 prompt_world =
            (r, read_all ([] ++ mkRead 0.5 (Chunk "login") :: mkRead 1 ReadTimeout ::
                          take k [mkRead 0.5 (Chunk ": $ "); mkRead 0.25 (Chunk "more")])
                  prompt_world)).
Proof.
  split.
  - apply (prompt_scanner_returns_at_prompt 10 prompt_world
             [mkRead 0.5 (Chunk "login"); mkRead 1 ReadTimeout] 0.5 ": $ "
             [mkRead 0.25 (Chunk "more")]).
    + reflexivity.
    + cbn. repeat split; try lra; try done. by apply prompt_like_false.
    + cbn. lra.
    + done.
    + by apply prompt_like_spec.
  - apply (prompt_scanner_returns_at_prompt 10 prompt_world [] 0.5 "login"
             [mkRead 1 ReadTimeout; mkRead 0.5 (Chunk ": $ "); mkRead 0.25 (Chunk "more")]).
    + reflexivity.
    + exact I.
    + cbn. lra.
    + done.
    + by apply prompt_like_false.
    + cbn. lra.
    + reflexivity.
Defined.

(** C5.  With no terminator seen, the scanner returns what it has
    gathered, as a value: when the time budget is used up at the loop
    test, and when a read returns the empty text of a closed stream (or
    no read is left).  A read that brings nothing within its sub-timeout
    only sends the loop to its test again, with the buffer unchanged. *)
Theorem prompt_scanner_partial_buffer (timeout : Q) (w : World)
    (pre rest : list ReadEvent) :
  incoming w = pre ++ rest →
  waits timeout 0 "" pre →
  ((timeout <= duration pre)%Q →
   wait_for_prompt timeout w = (Return (chunks pre), read_all pre w)) ∧
  ((duration pre < timeout)%Q → ∀ dt rest', rest = mkRead dt (Chunk "") :: rest' →
   wait_for_prompt timeout w =
     (Return (chunks pre), read_all (pre ++ [mkRead dt (Chunk "")]) w)) ∧
  (rest = [] →
   wait_for_prompt timeout w = (Return (chunks pre), read_all pre w)) ∧
  (∀ buffer dt rest', rest = mkRead dt ReadTimeout :: rest' →
   wait_for_prompt_body buffer (read_all pre w) =
     (Return (Continue buffer), read_all (pre ++ [mkRead dt ReadTimeout]) w)).
Proof.
  intros Hin Hwaits.
  pose proof (read_all_clock pre w) as Hclock.
  pose proof (read_all_incoming _ _ _ Hin) as Hin'.
  repeat split.
  - intros Htime. rewrite (wait_for_prompt_waits _ _ _ _ Hin Hwaits), loop_unfold.
    destruct (Qlt_le_dec _ _) as [Hlt|_]; [lra|done].
  - intros Htime dt rest' ->.
    rewrite (wait_for_prompt_waits _ _ _ _ Hin Hwaits), loop_unfold.
    destruct (Qlt_le_dec _ _) as [_|Hge]; [|lra].
    by rewrite (body_read _ _ _ _ Hin'), read_all_snoc.
  - intros ->. rewrite (wait_for_prompt_waits _ _ _ _ Hin Hwaits), loop_unfold.
    destruct (Qlt_le_dec _ _) as [_|_]; [|done]. by rewrite (body_closed _ _ Hin').
  - intros buffer dt rest' ->. by rewrite (body_read _ _ _ _ Hin'), read_all_snoc.
Qed.

Lemma prompt_scanner_partial_buffer_witness :
  wait_for_prompt 2 silent_world =
    (Return "Temp: 45.30 C",
     read_all [mkRead 0.5 (Chunk "Temp: 45.30 C"); mkRead 1 ReadTimeout;
               mkRead 1 ReadTimeout] silent_world) ∧
  wait_for_prompt 30 closing_world =
    (Return "Temp: 45.30 C",
     read_all ([mkRead 0.5 (Chunk "Temp: 45.30 C")] ++ [mkRead 0.5 (Chunk "")])
       closing_world).
Proof.
  split.
  - refine (proj1 (prompt_scanner_partial_buffer 2 silent_world
             [mkRead 0.5 (Chunk "Temp: 45.30 C"); mkRead 1 ReadTimeout; mkRead 1 ReadTimeout]
             [mkRead 0.5 (Chunk "late")] _ _) _).
    + reflexivity.
    + cbn. repeat split; try lra; try done. by apply prompt_like_false.
    + cbn. lra.
  - refine (proj1 (proj2 (prompt_scanner_partial_buffer 30 closing_world
              [mkRead 0.5 (Chunk "Temp: 45.30 C")]
              [mkRead 0.5 (Chunk ""); mkRead 0.5 (Chunk "never read")] _ _)) _ 0.5%Q
              [mkRead 0.5 (Chunk "never read")] _).
    + reflexivity.
    + cbn. repeat split; try lra; try done. by apply prompt_like_false.
    + cbn. lra.
    + reflexivity.
Defined.

(** C10.  The scanner never raises: whatever the reads do, it returns a
    text.  When a read raises, the text it returns is the empty one, and
    what the reads before had gathered is dropped. *)
Theorem prompt_scanner_swallows_exceptions (timeout : Q) (w : World) :
  (∃ buffer w', wait_for_prompt timeout w = (Return buffer, w')) ∧
  ∀ pre dt rest,
    incoming w = pre ++ mkRead dt ReadRaise :: rest →
    waits timeout 0 "" pre →
    (duration pre < timeout)%Q →
    wait_for_prompt timeout w =
      (Return "", read_all (pre ++ [mkRead dt ReadRaise]) w).
Proof.
  split.
  - destruct (wait_for_prompt_reads timeout w) as (buffer & k & -> & _). eauto.
  - intros pre dt rest Hin Hwaits Htime.
    pose proof (read_all_clock pre w) as Hclock.
    rewrite (wait_for_prompt_waits _ _ _ _ Hin Hwaits), loop_unfold.
    destruct (Qlt_le_dec _ _) as [_|Hge]; [|lra].
    by rewrite (body_read _ _ _ _ (read_all_incoming _ _ _ Hin)), read_all_snoc.
Qed.

Lemma prompt_scanner_swallows_exceptions_witness :
  chunks [mkRead 0.5 (Chunk "Temp: 45.30 C")] = "Temp: 45.30 C" ∧
  wait_for_prompt 30 reset_world =
    (Return "", read_all ([mkRead 0.5 (Chunk "Temp: 45.30 C")] ++ [mkRead 0.5 ReadRaise])
                  reset_world).
Proof.
  split; [reflexivity|].
  refine (proj2 (prompt_scanner_swallows_exceptions 30 reset_world)
            [mkRead 0.5 (Chunk "Temp: 45.30 C")] 0.5%Q [] _ _ _).
  - reflexivity.
  - cbn. repeat split; try lra; try done. by apply prompt_like_false.
  - cbn. lra.
Defined.

(** ** The session driver *)

Lemma trace_log (a : Action) (w : World) : trace (log a w) = trace w ++ [a].
Proof. done. Qed.

Lemma writer_await_trace (w w' : World) (r : Outcome unit) :
  writer_await w = (r, w') → trace w' = trace w.
Proof.
  unfold writer_await. destruct (faults w) as [|[e|] rest]; by intros [= <- <-].
Qed.

Lemma wait_for_prompt_trace (timeout : Q) (w w' : World) (r : Outcome string) :
  wait_for_prompt timeout w = (r, w') →
  ∃ reads response,
    r = Return response ∧ trace w' = trace w ++ receiveds reads ∧
    (response = chunks reads ∨ response = "").
Proof.
  destruct (wait_for_prompt_reads timeout w) as (buffer & k & -> & Hb).
  intros [= <- <-]. exists (take k (incoming w)), buffer.
  by rewrite read_all_trace.
Qed.

Lemma execute_telnet_command_spec (command : string) (timeout : Q) (w : World) :
  ∃ response reads w',
    execute_telnet_command command timeout w = (Return response, w') ∧
    trace w' = trace w ++ Sent (command +:+ CRLF) :: receiveds reads ∧
    (response = chunks reads ∨ response = "").
Proof.
  unfold execute_telnet_command, try_except, mbind, M_bind, bind, writer_write.
  destruct (writer_drain (log (Sent (command +:+ CRLF)) w)) as [[[]|e] w1] eqn:Hdrain;
    apply writer_await_trace in Hdrain; rewrite trace_log in Hdrain.
  - destruct (wait_for_prompt timeout w1) as [r w2] eqn:Hscan.
    apply wait_for_prompt_trace in Hscan as (reads & response & -> & Htr & Hresp).
    exists response, reads, w2. repeat split; [|done].
    by rewrite Htr, Hdrain, <- app_assoc.
  - exists "", [], w1. repeat split; [|by right]. by rewrite Hdrain.
Qed.

Lemma for_commands_spec (hostname : string) (items : list (string * Gauge)) (w : World) :
  ∃ w' segs,
    for_commands hostname items w = (Return tt, w') ∧
    trace w' = trace w ++ concat segs ∧
    Forall2 (command_segment hostname) items segs.
Proof.
  revert w. induction items as [|[command gauge] items IH]; intros w.
  - exists w, []. repeat split; [|constructor]. cbn. by rewrite app_nil_r.
  - cbn [for_commands]. unfold mbind, M_bind, bind.
    destruct (execute_telnet_command_spec command 30 w)
      as (response & reads & w1 & -> & Htr1 & Hresp).
    destruct (parse_result hostname command gauge response) as [o|] eqn:Hparse.
    + unfold gauge_set at 1.
      destruct (IH (log (Published o) w1)) as (w' & segs & -> & Htr & Hsegs).
      exists w', ((Sent (command +:+ CRLF) :: receiveds reads ++ [Published o]) :: segs).
      repeat split.
      * rewrite Htr, trace_log, Htr1. cbn. by rewrite <- !app_assoc.
      * constructor; [|done]. exists reads, response. cbn. by rewrite Hparse.
    + unfold mret, M_ret, ret at 1.
      destruct (IH w1) as (w' & segs & -> & Htr & Hsegs).
      exists w', ((Sent (command +:+ CRLF) :: receiveds reads) :: segs).
      repeat split.
      * rewrite Htr, Htr1. cbn. by rewrite <- !app_assoc.
      * constructor; [|done]. exists reads, response. cbn. by rewrite Hparse, app_nil_r.
Qed.

(** The driver, step by step. *)
Lemma fetch_unfold (hostname : string) (port : Z) (username password : string) (w : World) :
  fetch_and_update_metrics_via_telnet hostname port username password w =
    match connect w with
    | Raise e => (Return tt, w)
    | Return _ =>
        match wait_for_prompt 10 (log Opened w) with
        | (Raise e, w1) => (Return tt, w1)
        | (Return initial_response, w1) =>
            if Py.contains (Py.lower initial_response) "login:"
               || Py.contains (Py.lower initial_response) "username:"
            then
              match writer_drain (log (Sent (username +:+ CRLF)) w1) with
              | (Raise e, w1') => (Return tt, w1')
              | (Return _, w1') =>
                  match wait_for_prompt 10 w1' with
                  | (Raise e, w2) => (Return tt, w2)
                  | (Return password_response, w2) =>
                      if Py.contains (Py.lower password_response) "password:"
                      then
                        match writer_drain (log (Sent (password +:+ CRLF)) w2) with
                        | (Raise e, w2') => (Return tt, w2')
                        | (Return _, w2') =>
                            match wait_for_prompt 10 w2' with
                            | (Raise e, w3) => (Return tt, w3)
                            | (Return shell_response, w3) =>
                                match for_commands hostname commands w3 with
                                | (Raise e, w4) => (Return tt, w4)
                                | (Return _, w4) =>
                                    (Return tt, (writer_wait_closed (log Closed w4)).2)
                                end
                            end
                        end
                      else (Return tt, log Closed w2)
                  end
              end
            else (Return tt, log Closed w1)
        end
    end.
Proof.
  unfold fetch_and_update_metrics_via_telnet, try_except, mbind, M_bind, bind,
    open_connection, writer_write, writer_close.
  destruct (connect w) as [[]|e]; [|done].
  destruct (wait_for_prompt 10 (log Opened w)) as [[initial_response|e] w1]; [|done].
  destruct (_ || _); [|done].
  destruct (writer_drain _) as [[[]|e] w1']; [|done].
  destruct (wait_for_prompt 10 w1') as [[password_response|e] w2]; [|done].
  destruct (Py.contains _ _); [|done].
  destruct (writer_drain _) as [[[]|e] w2']; [|done].
  destruct (wait_for_prompt 10 w2') as [[shell_response|e] w3]; [|done].
  destruct (for_commands hostname commands w3) as [[[]|e] w4]; [|done].
  by destruct (writer_wait_closed (log Closed w4)) as [[[]|e] w5].
Qed.

Lemma contains_false (s needle : string) :
  Py.contains s needle = false ↔ ¬ occurs needle s.
Proof.
  unfold occurs. rewrite <- contains_spec. by destruct (Py.contains s needle).
Qed.

Lemma login_seen (initial_response : string) :
  occurs "login:" (Py.lower initial_response) ∨
  occurs "username:" (Py.lower initial_response) →
  Py.contains (Py.lower initial_response) "login:"
  || Py.contains (Py.lower initial_response) "username:" = true.
Proof. rewrite orb_true_iff, !contains_spec. by unfold occurs. Qed.

(** The history of a session up to the scan after the user name. *)
Lemma login_answered_trace (username : string) (w w2 : World) (password_response : string) :
  login_answered username w w2 password_response →
  ∃ reads1 reads2,
    trace w2 = trace w ++ [Opened] ++ receiveds reads1 ++
               [Sent (username +:+ CRLF)] ++ receiveds reads2.
Proof.
  intros (initial & w1 & w1' & _ & Hscan1 & _ & Hdrain & Hscan2).
  apply wait_for_prompt_trace in Hscan1 as (reads1 & ? & _ & Htr1 & _).
  apply wait_for_prompt_trace in Hscan2 as (reads2 & ? & _ & Htr2 & _).
  apply writer_await_trace in Hdrain. rewrite !trace_log in *.
  exists reads1, reads2. rewrite Htr2, Hdrain, Htr1. by rewrite <- !app_assoc.
Qed.

(** C7.  When the login prompt has been answered and the text scanned
    next holds no "password:" in any letter case, the session closes the
    connection at once and returns: the user name is the only thing ever
    written, and nothing is published. *)
Theorem no_password_prompt_closes (hostname : string) (port : Z)
    (username password : string) (w w2 : World) (password_response : string) :
  login_answered username w w2 password_response →
  ¬ occurs "password:" (Py.lower password_response) →
  fetch_and_update_metrics_via_telnet hostname port username password w =
    (Return tt, log Closed w2) ∧
  (∃ reads1 reads2,
     trace (log Closed w2) =
       trace w ++ [Opened] ++ receiveds reads1 ++
       [Sent (username +:+ CRLF)] ++ receiveds reads2 ++ [Closed]) ∧
  published (trace (log Closed w2)) = published (trace w).
Proof.
  intros Hlogin Hno.
  destruct (login_answered_trace _ _ _ _ Hlogin) as (reads1 & reads2 & Htr).
  destruct Hlogin as (initial & w1 & w1' & Hconn & Hscan1 & Hseen & Hdrain & Hscan2).
  repeat split.
  - rewrite fetch_unfold, Hconn, Hscan1, (login_seen _ Hseen), Hdrain, Hscan2.
    apply contains_false in Hno. by rewrite Hno.
  - exists reads1, reads2. rewrite trace_log, Htr. by rewrite <- !app_assoc.
  - rewrite trace_log, Htr. unfold published, receiveds.
    rewrite !omap_app. cbn.
    assert (∀ evs, omap (λ a, match a with Published o => Some o | _ => None end)
                     (map (λ ev, Received (result ev)) evs) = []) as Hnone.
    { intros evs. induction evs as [|ev evs IH]; [done|]. by cbn. }
    by rewrite !Hnone, !app_nil_r.
Qed.

Lemma no_password_prompt_closes_witness :
  ∃ w2,
    fetch_and_update_metrics_via_telnet "192.168.1.1" 23 "admin" "secret"
      no_password_world = (Return tt, log Closed w2) ∧
    trace (log Closed w2) =
      [Opened; Received (Chunk "login: ")] ++ receiveds (silence 10) ++
      [Sent ("admin" +:+ CRLF); Received (Chunk "> "); Closed].
Proof.
  eexists. split.
  - refine (proj1 (no_password_prompt_closes "192.168.1.1" 23 "admin" "secret"
                     no_password_world _ "> " _ _)).
    + eexists "login: ", _, _.
      split; [reflexivity|]. split; [vm_compute; reflexivity|].
      split; [left; by exists "", " "|].
      split; vm_compute; reflexivity.
    + by apply contains_false.
  - vm_compute. reflexivity.
Defined.

Lemma parse_result_empty (hostname command : string) (gauge : Gauge) :
  parse_result hostname command gauge "" = None.
Proof.
  unfold parse_result. destruct (bool_decide _); [done|].
  by destruct (Py.startswith _ _).
Qed.

(** The command loop is the exchanges of its commands, one after the
    other. *)
Lemma for_commands_exchanges (hostname : string) (items : list (string * Gauge))
    (w : World) :
  ∃ w' segs,
    for_commands hostname items w = (Return tt, w') ∧
    runs_through hostname items w segs w' ∧
    trace w' = trace w ++ concat segs ∧
    Forall2 (command_segment hostname) items segs.
Proof.
  revert w. induction items as [|[command gauge] items IH]; intros w.
  { exists w, []. repeat split; [|constructor]. cbn. by rewrite app_nil_r. }
  cbn [for_commands]. unfold mbind, M_bind, bind.
  assert (∃ response reads r w1,
            writer_drain (log (Sent (command +:+ CRLF)) w) = (r, w1) ∧
            match r with
            | Return _ =>
                wait_for_prompt 30 w1 = (Return response, read_all reads w1) ∧
                (∃ k, reads = take k (incoming w1)) ∧
                (response = chunks reads ∨ response = "")
            | Raise _ => response = "" ∧ reads = []
            end ∧
            execute_telnet_command command 30 w = (Return response, read_all reads w1) ∧
            trace (read_all reads w1) =
              trace w ++ Sent (command +:+ CRLF) :: receiveds reads)
    as (response & reads & r & w1 & Hdrain & Hscan & -> & Htr1).
  { unfold execute_telnet_command, try_except, mbind, M_bind, bind, writer_write.
    destruct (writer_drain (log (Sent (command +:+ CRLF)) w)) as [r w1] eqn:Hdrain.
    pose proof (writer_await_trace _ _ _ Hdrain) as Htr. rewrite trace_log in Htr.
    destruct r as [[]|e].
    - destruct (wait_for_prompt_reads 30 w1) as (response & k & Hscan & Hresp).
      exists response, (take k (incoming w1)), (Return tt), w1. rewrite Hscan.
      repeat split; [by exists k|done|].
      by rewrite read_all_trace, Htr, <- app_assoc.
    - exists "", [], (Raise e), w1. repeat split. cbn. by rewrite Htr. }
  set (o := parse_result hostname command gauge response).
  assert (∃ w2,
            w2 = publish o (read_all reads w1) ∧
            match o with Some o => gauge_set o | None => mret () end (read_all reads w1) =
              (Return tt, w2) ∧
            trace w2 = trace w ++ Sent (command +:+ CRLF) :: receiveds reads ++
                       option_list (Published <$> o))
    as (w2 & Hw2 & -> & Htr2).
  { exists (publish o (read_all reads w1)). destruct o as [o|]; cbn.
    - repeat split. rewrite Htr1. by rewrite <- app_assoc.
    - repeat split. by rewrite Htr1, app_nil_r. }
  destruct (IH w2) as (w' & segs & -> & Hruns & Htr & Hsegs).
  exists w', ((Sent (command +:+ CRLF) :: receiveds reads ++ option_list (Published <$> o))
              :: segs).
  repeat split.
  - exists w2. split; [|done]. by exists r, w1, response, reads.
  - rewrite Htr, Htr2, <- app_assoc. cbn. by rewrite <- app_assoc.
  - constructor; [|done]. exists reads, response. split; [done|].
    destruct r; [tauto|]. right. tauto.
Qed.

(** C6.  In every authenticated session the commands of the table are
    run one after the other in the order of the table (bias-current,
    rx-power, temperature, tx-power, voltage, onu-state), and then the
    connection is closed.  Each command is written and flushed, the
    prompt is scanned in the world the flush has left, and the text that
    scan returns is parsed for that command and its observation, if
    there is one, published; the next command is written in the world so
    reached, and not before.  The rest of the history is accordingly one
    piece per command, in order: the command written, the reads of its
    scan, its observation; nothing is published out of order. *)
Theorem commands_run_in_table_order (hostname : string) (port : Z)
    (username password : string) (w w3 : World) :
  authenticated username password w w3 →
  ∃ w4 w' segs,
    fetch_and_update_metrics_via_telnet hostname port username password w =
      (Return tt, w') ∧
    runs_through hostname commands w3 segs w4 ∧
    w' = (writer_wait_closed (log Closed w4)).2 ∧
    trace w' = trace w3 ++ concat segs ++ [Closed] ∧
    Forall2 (command_segment hostname) commands segs ∧
    commands.*1 =
      [ "diag pon get transceiver bias-current"; "diag pon get transceiver rx-power";
        "diag pon get transceiver temperature"; "diag pon get transceiver tx-power";
        "diag pon get transceiver voltage"; "diag gpon get onu-state" ].
Proof.
  intros (w2 & password_response & w2' & shell_response & Hlogin & Hpw & Hdrain2 & Hscan3).
  destruct Hlogin as (initial & w1 & w1' & Hconn & Hscan1 & Hseen & Hdrain & Hscan2).
  destruct (for_commands_exchanges hostname commands w3)
    as (w4 & segs & Hfor & Hruns & Htr & Hsegs).
  exists w4, (writer_wait_closed (log Closed w4)).2, segs.
  split; [|split; [done|split; [done|split; [|split; [done|reflexivity]]]]].
  - rewrite fetch_unfold, Hconn, Hscan1, (login_seen _ Hseen), Hdrain, Hscan2.
    apply contains_spec in Hpw. by rewrite Hpw, Hdrain2, Hscan3, Hfor.
  - destruct (writer_wait_closed (log Closed w4)) as [r w5] eqn:Hclose.
    apply writer_await_trace in Hclose. cbn. rewrite Hclose, trace_log, Htr.
    by rewrite <- app_assoc.
Qed.

Lemma commands_run_in_table_order_witness :
  ∃ w3 w4 w' segs,
    fetch_and_update_metrics_via_telnet "192.168.1.1" 23 "admin" "secret"
      complete_session_world = (Return tt, w') ∧
    runs_through "192.168.1.1" commands w3 segs w4 ∧
    trace w' = trace w3 ++ concat segs ++ [Closed] ∧
    published (trace w') =
      [ mkObservation bias_current_gauge "192.168.1.1" (PyFloat "12.50");
        mkObservation rx_power_gauge "192.168.1.1" (PyFloat "-18.24");
        mkObservation temperature_gauge "192.168.1.1" (PyFloat "45.30");
        mkObservation tx_power_gauge "192.168.1.1" (PyFloat "2.31");
        mkObservation voltage_gauge "192.168.1.1" (PyFloat "3.28");
        mkObservation onu_state_gauge "192.168.1.1" (PyInt 3) ].
Proof.
  assert (∃ w3, authenticated "admin" "secret" complete_session_world w3) as [w3 Hauth].
  { eexists. eexists _, "Password: ", _, "> ". split; [|split; [|split]].
    - eexists "login: ", _, _.
      split; [reflexivity|]. split; [vm_compute; reflexivity|].
      split; [left; by exists "", " "|].
      split; vm_compute; reflexivity.
    - by exists "", " ".
    - vm_compute. reflexivity.
    - vm_compute. reflexivity. }
  destruct (commands_run_in_table_order "192.168.1.1" 23 "admin" "secret"
              complete_session_world w3 Hauth)
    as (w4 & w' & segs & Hrun & Hruns & _ & Htr & _ & _).
  exists w3, w4, w', segs. split; [done|split; [done|split; [done|]]].
  assert (w' = (fetch_and_update_metrics_via_telnet "192.168.1.1" 23 "admin" "secret"
                  complete_session_world).2) as -> by (by rewrite Hrun).
  vm_compute. reflexivity.
Defined.

(** C8.  A session whose connection is reset while the user name is
    being flushed: the poll returns, and the history holds the opening
    of the connection and the user name written, but no close. *)
Theorem exception_path_leaves_connection_open :
  ∃ w',
    fetch_and_update_metrics_via_telnet_sync "192.168.1.1" 23 "admin" "secret"
      reset_on_login_world = (Return tt, w') ∧
    trace w' = [Opened; Received (Chunk "login: ")] ++ receiveds (silence 10) ++
               [Sent ("admin" +:+ CRLF)] ∧
    Opened ∈ trace w' ∧ Closed ∉ trace w'.
Proof.
  eexists. split; [vm_compute; reflexivity|]. split; [vm_compute; reflexivity|].
  cbn. split; [left|]. intros Hin.
  repeat (apply elem_of_cons in Hin as [Hin|Hin]; [discriminate Hin|]).
  by apply elem_of_nil in Hin.
Qed.

(** *** What a session can publish *)

Lemma published_app (l1 l2 : list Action) :
  published (l1 ++ l2) = published l1 ++ published l2.
Proof. apply omap_app. Qed.

Lemma published_receiveds (evs : list ReadEvent) : published (receiveds evs) = [].
Proof. induction evs as [|ev evs IH]; [done|]. by cbn. Qed.

Lemma grows_refl (w : World) : grows w w [].
Proof. exists []. by rewrite app_nil_r. Qed.

Lemma grows_trans (w w1 w2 : World) (o1 o2 : list Observation) :
  grows w w1 o1 → grows w1 w2 o2 → grows w w2 (o1 ++ o2).
Proof.
  intros (a1 & Htr1 & <-) (a2 & Htr2 & <-). exists (a1 ++ a2).
  by rewrite Htr2, Htr1, <- app_assoc, published_app.
Qed.

Lemma grows_log (a : Action) (w : World) : grows w (log a w) (published [a]).
Proof. by exists [a]. Qed.

Lemma grows_await (w w' : World) (r : Outcome unit) :
  writer_await w = (r, w') → grows w w' [].
Proof. intros Htr%writer_await_trace. exists []. by rewrite app_nil_r. Qed.

Lemma grows_scan (timeout : Q) (w w' : World) (r : Outcome string) :
  wait_for_prompt timeout w = (r, w') → grows w w' [].
Proof.
  intros (reads & ? & _ & Htr & _)%wait_for_prompt_trace.
  exists (receiveds reads). by rewrite published_receiveds.
Qed.

Lemma parse_result_labels (hostname command : string) (gauge : Gauge)
    (response : string) (o : Observation) :
  parse_result hostname command gauge response = Some o →
  obs_gauge o = gauge ∧ obs_ip o = hostname.
Proof.
  unfold parse_result. destruct (bool_decide _); [|destruct (Py.startswith _ _)];
    destruct (Re.search _ _); by intros [= <-].
Qed.

(** The pieces of history of the commands publish at most one
    observation per command, in the order of the commands, each on the
    gauge of its command and under the label of the device. *)
Lemma segments_published (hostname : string) (items : list (string * Gauge))
    (segs : list (list Action)) :
  Forall2 (command_segment hostname) items segs →
  sublist (obs_gauge <$> published (concat segs)) (items.*2) ∧
  Forall (λ o, obs_ip o = hostname) (published (concat segs)).
Proof.
  induction 1 as [|[command gauge] seg items segs (reads & response & -> & _) _ [IHs IHf]].
  - split; constructor.
  - cbn [concat]. rewrite published_app. cbn [fst snd fmap list_fmap].
    change (published (Sent (command +:+ CRLF) :: ?l)) with (published l).
    rewrite published_app, published_receiveds, app_nil_l.
    destruct (parse_result hostname command gauge response) as [o|] eqn:Hparse; cbn.
    + apply parse_result_labels in Hparse as [<- Hip]. split.
      * by apply sublist_skip.
      * by constructor.
    + split; [by apply sublist_cons|done].
Qed.

(** C9.  The poll of one device always returns, whatever the connection
    attempt, the reads and the writes do.  Its whole effect is some more
    history; what it publishes there is at most one observation per
    command, in the order of the table, each under the label of the
    device polled. *)
Theorem poll_always_returns (hostname : string) (port : Z)
    (username password : string) (w : World) :
  ∃ w' added,
    fetch_and_update_metrics_via_telnet_sync hostname port username password w =
      (Return tt, w') ∧
    trace w' = trace w ++ added ∧
    sublist (obs_gauge <$> published added) (commands.*2) ∧
    Forall (λ o, obs_ip o = hostname) (published added).
Proof.
  assert (∃ w' obs,
            fetch_and_update_metrics_via_telnet hostname port username password w =
              (Return tt, w') ∧
            grows w w' obs ∧
            sublist (obs_gauge <$> obs) (commands.*2) ∧
            Forall (λ o, obs_ip o = hostname) obs) as (w' & obs & Hrun & Hgrows & Hsub & Hip).
  { assert (sublist (obs_gauge <$> []) (commands.*2)) as Hnil by apply sublist_nil_l.
    rewrite fetch_unfold.
    destruct (connect w) as [[]|e].
    2:{ exists w, []. eauto using grows_refl. }
    destruct (wait_for_prompt 10 (log Opened w)) as [r1 w1] eqn:Hscan1.
    pose proof (grows_trans _ _ _ _ _ (grows_log Opened w) (grows_scan _ _ _ _ Hscan1)) as G1.
    destruct r1 as [initial_response|e]; [|exists w1, []; eauto].
    destruct (_ || _).
    2:{ exists (log Closed w1), []. repeat split; [|done..].
        apply (grows_trans _ _ _ _ _ G1 (grows_log Closed w1)). }
    destruct (writer_drain (log (Sent (username +:+ CRLF)) w1)) as [r w1'] eqn:Hdrain.
    pose proof (grows_trans _ _ _ _ _ G1
                  (grows_trans _ _ _ _ _ (grows_log (Sent (username +:+ CRLF)) w1)
                     (grows_await _ _ _ Hdrain))) as G2.
    destruct r as [[]|e]; [|exists w1', []; eauto].
    destruct (wait_for_prompt 10 w1') as [r2 w2] eqn:Hscan2.
    pose proof (grows_trans _ _ _ _ _ G2 (grows_scan _ _ _ _ Hscan2)) as G3.
    destruct r2 as [password_response|e]; [|exists w2, []; eauto].
    destruct (Py.contains _ _).
    2:{ exists (log Closed w2), []. repeat split; [|done..].
        apply (grows_trans _ _ _ _ _ G3 (grows_log Closed w2)). }
    destruct (writer_drain (log (Sent (password +:+ CRLF)) w2)) as [r w2'] eqn:Hdrain2.
    pose proof (grows_trans _ _ _ _ _ G3
                  (grows_trans _ _ _ _ _ (grows_log (Sent (password +:+ CRLF)) w2)
                     (grows_await _ _ _ Hdrain2))) as G4.
    destruct r as [[]|e]; [|exists w2', []; eauto].
    destruct (wait_for_prompt 10 w2') as [r3 w3] eqn:Hscan3.
    pose proof (grows_trans _ _ _ _ _ G4 (grows_scan _ _ _ _ Hscan3)) as G5.
    destruct r3 as [shell_response|e]; [|exists w3, []; eauto].
    destruct (for_commands_spec hostname commands w3) as (w4 & segs & -> & Htr & Hsegs).
    destruct (segments_published _ _ _ Hsegs) as [Hsub Hip].
    destruct (writer_wait_closed (log Closed w4)) as [r w5] eqn:Hclose.
    exists w5, (published (concat segs)). repeat split; [|done..].
    assert (grows w3 w4 (published (concat segs))) as G6 by (by exists (concat segs)).
    pose proof (grows_trans _ _ _ _ _ G5
                  (grows_trans _ _ _ _ _ G6
                     (grows_trans _ _ _ _ _ (grows_log Closed w4)
                        (grows_await _ _ _ Hclose)))) as G7.
    cbn in G7. by rewrite app_nil_r in G7. }
  destruct Hgrows as (added & Htr & <-).
  exists w', added. repeat split; [|done..].
  unfold fetch_and_update_metrics_via_telnet_sync, try_except. by rewrite Hrun.
Qed.

(** ** More on the prompt scanner *)

(** X1.  A scan whose time budget is zero or negative takes no read at
    all: it returns the empty text and leaves the world as it was. *)
Theorem scanner_without_budget_reads_nothing (timeout : Q) (w : World) :
  (timeout <= 0)%Q → wait_for_prompt timeout w = (Return "", w).
Proof.
  intros Hle. rewrite wait_for_prompt_unfold, loop_unfold.
  destruct (Qlt_le_dec _ _) as [Hlt|_]; [lra|done].
Qed.

Lemma scanner_without_budget_reads_nothing_witness :
  wait_for_prompt 0 prompt_world = (Return "", prompt_world).
Proof. apply scanner_without_budget_reads_nothing. lra. Defined.

(** Every read the loop takes is started while the budget is not used
    up. *)
Lemma loop_deadline (fuel : nat) (timeout start_time spent : Q) (buffer : string)
    (w : World) :
  (clock w - start_time == spent)%Q →
  ∃ r k,
    wait_for_prompt_loop fuel timeout start_time buffer w =
      (r, read_all (take k (incoming w)) w) ∧
    ∀ j, j < k → (spent + duration (take j (incoming w)) < timeout)%Q.
Proof.
  revert spent buffer w. induction fuel as [|fuel IH]; intros spent buffer w Hclock.
  { exists (Return buffer), 0. split; [done|]. lia. }
  rewrite loop_unfold. destruct (Qlt_le_dec _ _) as [Hlt|_].
  2:{ exists (Return buffer), 0. split; [done|]. lia. }
  destruct (incoming w) as [|ev rest] eqn:Hin.
  { rewrite (body_closed _ _ Hin). exists (Return buffer), 0. split; [done|]. lia. }
  rewrite (body_read _ _ _ _ Hin).
  assert (incoming (read_one ev w) = rest) as Hin'
    by (by rewrite incoming_read_one, Hin).
  assert (clock (read_one ev w) - start_time == spent + elapsed ev)%Q as Hclock'
    by (cbn; lra).
  assert (∀ j, j < 1 → (spent + duration (take j (ev :: rest)) < timeout)%Q) as Hone.
  { intros j Hj. replace j with 0 by lia. cbn. lra. }
  assert (∀ b, ∃ r k,
            wait_for_prompt_loop fuel timeout start_time b (read_one ev w) =
              (r, read_all (take k (ev :: rest)) w) ∧
            ∀ j, j < k → (spent + duration (take j (ev :: rest)) < timeout)%Q) as Hgo.
  { intros b. destruct (IH _ b _ Hclock') as (r & k & -> & Hk). rewrite Hin' in *.
    exists r, (S k). split; [done|]. intros [|j] Hj; cbn; [lra|].
    specialize (Hk j ltac:(lia)). lra. }
  destruct (result ev) as [data| |].
  - destruct (Py.is_empty data); [by exists (Return buffer), 1|].
    destruct (prompt_like _); [by exists (Return (buffer +:+ data)), 1|]. apply Hgo.
  - apply Hgo.
  - by exists (Raise Error), 1.
Qed.

(** X2.  When no awaited read takes longer than [d], a scan with budget
    [timeout] ends within [timeout + d] on the clock: a device cannot
    hold the scanner for longer than its budget and one read. *)
Theorem scanner_ends_within_budget (timeout d : Q) (w : World) :
  (0 <= timeout)%Q → (0 <= d)%Q →
  Forall (λ ev, elapsed ev <= d)%Q (incoming w) →
  ∃ buffer w',
    wait_for_prompt timeout w = (Return buffer, w') ∧
    (clock w' - clock w <= timeout + d)%Q.
Proof.
  intros Htimeout Hd Hbound. rewrite wait_for_prompt_unfold.
  destruct (loop_deadline (S (length (incoming w))) timeout (clock w) 0 "" w)
    as (r & k & -> & Hk); [lra|].
  assert (clock (read_all (take k (incoming w)) w) - clock w <= timeout + d)%Q as Hclock.
  { rewrite read_all_clock.
    destruct k as [|k]; [rewrite take_0; cbn [duration]; lra|].
    specialize (Hk k ltac:(lia)).
    destruct (decide (k < length (incoming w))) as [Hlen|Hlen].
    - destruct (lookup_lt_is_Some_2 _ _ Hlen) as [ev Hev].
      rewrite (take_S_r _ _ _ Hev), duration_app. cbn.
      rewrite Forall_lookup in Hbound. specialize (Hbound _ _ Hev). cbn in Hbound. lra.
    - rewrite take_ge in * by lia. lra. }
  destruct r; eauto.
Qed.

Lemma scanner_ends_within_budget_witness :
  ∃ buffer w',
    wait_for_prompt 2 silent_world = (Return buffer, w') ∧
    (clock w' - clock silent_world <= 2 + 1)%Q.
Proof.
  apply scanner_ends_within_budget; [lra..|].
  repeat constructor; cbn; lra.
Defined.

Lemma last_cons_Some {A : Type} (x y : A) (l : list A) :
  last l = Some y → last (x :: l) = Some y.
Proof. by destruct l. Qed.

Lemma loop_reason (fuel : nat) (timeout start_time spent : Q) (buffer : string)
    (w : World) :
  (clock w - start_time == spent)%Q →
  length (incoming w) < fuel →
  ∃ r k,
    wait_for_prompt_loop fuel timeout start_time buffer w =
      (r, read_all (take k (incoming w)) w) ∧
    match r with
    | Return b =>
        b = buffer +:+ chunks (take k (incoming w)) ∧
        ((prompt_terminated b ∧
          ∃ ev data, last (take k (incoming w)) = Some ev ∧
                     result ev = Chunk data ∧ data ≠ "") ∨
         (timeout <= spent + duration (take k (incoming w)))%Q ∨
         drop k (incoming w) = [] ∨
         ∃ ev, last (take k (incoming w)) = Some ev ∧ result ev = Chunk "")
    | Raise e =>
        ∃ ev, last (take k (incoming w)) = Some ev ∧ result ev = ReadRaise
    end.
Proof.
  revert spent buffer w.
  induction fuel as [|fuel IH]; intros spent buffer w Hclock Hfuel; [lia|].
  rewrite loop_unfold. destruct (Qlt_le_dec _ _) as [Hlt|Hge].
  2:{ exists (Return buffer), 0. rewrite take_0. cbn [chunks duration].
      rewrite str_app_nil_r. repeat split. right. left. lra. }
  destruct (incoming w) as [|ev rest] eqn:Hin.
  { rewrite (body_closed _ _ Hin). exists (Return buffer), 0. cbn.
    rewrite str_app_nil_r. repeat split. right. right. by left. }
  rewrite (body_read _ _ _ _ Hin).
  assert (incoming (read_one ev w) = rest) as Hin'
    by (by rewrite incoming_read_one, Hin).
  assert (clock (read_one ev w) - start_time == spent + elapsed ev)%Q as Hclock'
    by (cbn; lra).
  assert (length (incoming (read_one ev w)) < fuel) as Hfuel'
    by (rewrite Hin'; cbn in Hfuel; lia).
  assert (∀ b, b = buffer +:+ chunk_text ev →
            ∃ r k,
              wait_for_prompt_loop fuel timeout start_time b (read_one ev w) =
                (r, read_all (take k (ev :: rest)) w) ∧
              match r with
              | Return b' =>
                  b' = buffer +:+ chunks (take k (ev :: rest)) ∧
                  ((prompt_terminated b' ∧
                    ∃ ev' data, last (take k (ev :: rest)) = Some ev' ∧
                                result ev' = Chunk data ∧ data ≠ "") ∨
                   (timeout <= spent + duration (take k (ev :: rest)))%Q ∨
                   drop k (ev :: rest) = [] ∨
                   ∃ ev', last (take k (ev :: rest)) = Some ev' ∧ result ev' = Chunk "")
              | Raise e =>
                  ∃ ev', last (take k (ev :: rest)) = Some ev' ∧ result ev' = ReadRaise
              end) as Hgo.
  { intros b ->.
    destruct (IH _ (buffer +:+ chunk_text ev) _ Hclock' Hfuel') as (r & k & -> & Hr).
    rewrite Hin' in *. exists r, (S k). split; [done|].
    cbn [take drop chunks duration]. destruct r as [b'|e].
    - destruct Hr as [-> Hr]. split; [by rewrite str_app_assoc|].
      destruct Hr as [[Hterm (ev' & data & Hlast & Hev' & Hdata)]|[Hbudget|[Hrest|(ev' & Hlast & Hev')]]].
      + left. split; [done|]. exists ev', data. eauto using last_cons_Some.
      + right. left. lra.
      + right. right. by left.
      + right. right. right. exists ev'. eauto using last_cons_Some.
    - destruct Hr as (ev' & Hlast & Hev'). exists ev'. eauto using last_cons_Some. }
  unfold chunk_text in Hgo.
  destruct (result ev) as [data| |] eqn:Hev.
  - destruct (Py.is_empty data) eqn:Hempty.
    { apply is_empty_spec in Hempty as ->. exists (Return buffer), 1.
      cbn. unfold chunk_text. rewrite Hev, !str_app_nil_r. repeat split.
      right. right. right. by exists ev. }
    destruct (prompt_like _) eqn:Hprompt; [|by apply Hgo].
    exists (Return (buffer +:+ data)), 1.
    cbn. unfold chunk_text. rewrite Hev, !str_app_nil_r. repeat split.
    left. split; [by apply prompt_like_spec|]. exists ev, data. repeat split; [done|].
    intros ->. done.
  - apply Hgo. by rewrite str_app_nil_r.
  - exists (Raise Error), 1. split; [done|]. by exists ev.
Qed.

(** X3.  The scanner returns for one of four reasons only: its buffer
    ends like a prompt after a read that brought text; its time budget
    is used up; the stream is closed; or a read raised, in which case
    the text it hands back is empty.  In the first three cases the text
    is exactly what the reads it took have brought, in order. *)
Theorem scanner_returns_for_a_reason (timeout : Q) (w : World) :
  ∃ buffer k,
    wait_for_prompt timeout w =
      (Return buffer, read_all (take k (incoming w)) w) ∧
    scan_reason timeout (take k (incoming w)) (drop k (incoming w)) buffer.
Proof.
  rewrite wait_for_prompt_unfold.
  destruct (loop_reason (S (length (incoming w))) timeout (clock w) 0 "" w)
    as (r & k & -> & Hr); [lra|lia|].
  destruct r as [b|e].
  - exists b, k. split; [done|]. destruct Hr as [Hb Hr]. rewrite str_app_nil_l in Hb.
    destruct Hr as [?|[?|[?|?]]].
    + by left.
    + right. left. split; [done|]. lra.
    + right. right. left. auto.
    + right. right. left. auto.
  - exists "", k. split; [done|]. by do 3 right.
Qed.

(** ** More on the response parser *)

Lemma onu_state_ordinal_range (code : string) :
  (0 ≤ onu_state_mapping_get code ≤ 7)%Z.
Proof.
  unfold onu_state_mapping_get, onu_state_mapping.
  rewrite !lookup_insert, lookup_empty. repeat case_decide; cbn; lia.
Qed.

(** X4.  Whatever the command and the response, an observation the
    parser makes is on the gauge and under the label it was given, and
    its value is either the float of a well-formed decimal number that
    stands in the response (with a minus sign only for the two power
    commands) or a state ordinal between 0 and 7. *)
Theorem parse_result_value_is_well_formed (hostname command : string) (gauge : Gauge)
    (response : string) (o : Observation) :
  parse_result hostname command gauge response = Some o →
  obs_gauge o = gauge ∧ obs_ip o = hostname ∧
  match obs_value o with
  | PyFloat m =>
      decimal_number
        (bool_decide (command ∈ ["diag pon get transceiver rx-power";
                                  "diag pon get transceiver tx-power"])) m ∧
      occurs m response
  | PyInt n => (0 ≤ n ≤ 7)%Z
  end.
Proof.
  unfold parse_result. destruct (bool_decide _).
  - pose proof (signed_decimal_re_spec response) as Hspec.
    destruct (Re.search signed_decimal_re response) as [M|]; [|done].
    intros [= <-]. cbn. repeat split; destruct Hspec as [(pre & post & ? & _ & ?) _];
      [done|by exists pre, post].
  - destruct (Py.startswith _ _).
    + destruct (Re.search onu_state_re response) as [M|]; [|done].
      intros [= <-]. cbn. repeat split; apply onu_state_ordinal_range.
    + pose proof (decimal_re_spec response) as Hspec.
      destruct (Re.search decimal_re response) as [M|]; [|done].
      intros [= <-]. cbn. repeat split; destruct Hspec as [(pre & post & ? & _ & ?) _];
        [done|by exists pre, post].
Qed.

Lemma parse_result_value_is_well_formed_witness :
  decimal_number false "45.30" ∧ occurs "45.30" ("Temp: 45.30 C" +:+ LF +:+ "> ").
Proof.
  refine (proj2 (proj2 (parse_result_value_is_well_formed "192.168.1.1"
            "diag pon get transceiver temperature" temperature_gauge
            ("Temp: 45.30 C" +:+ LF +:+ "> ")
            (mkObservation temperature_gauge "192.168.1.1" (PyFloat "45.30")) _))).
  reflexivity.
Defined.

(** The rest of the line after the first marker is one text only. *)
Lemma state_line_unique (text code1 code2 : string) :
  state_line text code1 → state_line text code2 → code1 = code2.
Proof.
  intros (pre1 & post1 & Heq1 & Hfirst1 & Hall1 & Hend1)
         (pre2 & post2 & Heq2 & Hfirst2 & Hall2 & Hend2).
  pose proof (Hfirst1 _ _ Heq2) as Hle1. pose proof (Hfirst2 _ _ Heq1) as Hle2.
  rewrite Heq1 in Heq2.
  assert (pre2 = pre1) as ->.
  { destruct (str_app_eq_app _ _ _ _ Heq2) as [[e [-> He]]|[e [-> He]]];
      rewrite str_length_app in *;
      (destruct e; [|cbn in *; lia]); by rewrite str_app_nil_r. }
  apply str_app_inv_head, str_app_inv_head in Heq2.
  assert (∀ c1 c2 p1 p2,
            c1 +:+ p1 = (c1 +:+ c2) +:+ p2 →
            chars_all (λ c, negb (Ascii.eqb c Re.newline)) (c1 +:+ c2) →
            (p1 = "" ∨ ∃ t, p1 = String Re.newline t) → c2 = "") as Hcut.
  { intros c1 [|x c2] p1 p2 Heq Hall Hend; [done|]. exfalso.
    rewrite str_app_assoc in Heq. apply str_app_inv_head in Heq.
    apply chars_all_app in Hall as [_ [Hx _]].
    destruct Hend as [->|[t ->]]; [done|].
    rewrite str_app_cons in Heq. injection Heq as <- _.
    by rewrite Ascii.eqb_refl in Hx. }
  destruct (str_app_eq_app _ _ _ _ Heq2) as [[e [-> He]]|[e [-> He]]].
  - rewrite (Hcut code1 e post1 post2); [by rewrite str_app_nil_r| |done..].
    by rewrite He, str_app_assoc.
  - rewrite (Hcut code2 e post2 post1); [by rewrite str_app_nil_r| |done..].
    by rewrite He, str_app_assoc.
Qed.

(** No key of the state table ends with a carriage return. *)
Lemma onu_state_mapping_no_cr (code : string) :
  onu_state_mapping !! (code +:+ String "013" "") = None.
Proof.
  unfold onu_state_mapping. rewrite !lookup_insert, lookup_empty.
  repeat case_decide; try done;
    match goal with
    | H : _ = code +:+ _ |- _ =>
        destruct code as [|? [|? [|? ?]]]; discriminate H
    end.
Qed.

(** X5.  A state line that ends with carriage return and line feed, the
    line ending of a telnet stream, always publishes the fallback 0,
    whatever the code on it: the carriage return is taken as part of the
    code, and no key of the table ends with one. *)
Theorem onu_state_with_carriage_return_is_zero (hostname pre code post : string) :
  (∀ pre' post',
     pre +:+ "ONU state: " +:+ code +:+ CRLF +:+ post =
       pre' +:+ "ONU state: " +:+ post' →
     String.length pre ≤ String.length pre') →
  chars_all (λ c, negb (Ascii.eqb c Re.newline)) code →
  parse_result hostname "diag gpon get onu-state" onu_state_gauge
    (pre +:+ "ONU state: " +:+ code +:+ CRLF +:+ post) =
    Some (mkObservation onu_state_gauge hostname (PyInt 0)).
Proof.
  intros Hfirst Hall.
  set (text := pre +:+ "ONU state: " +:+ code +:+ CRLF +:+ post) in *.
  assert (state_line text (code +:+ String "013" "")) as Hline.
  { exists pre, (LF +:+ post). repeat split.
    - unfold text, CRLF. by rewrite !str_app_assoc.
    - done.
    - apply chars_all_app. by split.
    - right. by exists post. }
  change (parse_result hostname "diag gpon get onu-state" onu_state_gauge text)
    with (match Re.search onu_state_re text with
          | Some state_code =>
              Some (mkObservation onu_state_gauge hostname
                      (PyInt (onu_state_mapping_get (Re.group state_code 1))))
          | None => None
          end).
  destruct (onu_state_re_occurs text) as [M HM].
  { by exists pre, (code +:+ CRLF +:+ post). }
  rewrite HM. pose proof (onu_state_re_Some _ _ HM) as Hline'.
  rewrite (state_line_unique _ _ _ Hline' Hline).
  unfold onu_state_mapping_get. by rewrite onu_state_mapping_no_cr.
Qed.

Lemma onu_state_with_carriage_return_is_zero_witness :
  parse_result "192.168.1.1" "diag gpon get onu-state" onu_state_gauge
    ("" +:+ "ONU state: " +:+ "03" +:+ CRLF +:+ "> ") =
    Some (mkObservation onu_state_gauge "192.168.1.1" (PyInt 0)).
Proof.
  apply onu_state_with_carriage_return_is_zero.
  - intros pre' post' _. cbn. lia.
  - by cbn.
Defined.

(** ** More on the command loop and the session driver *)

Lemma writes_app (l1 l2 : list Action) : writes (l1 ++ l2) = writes l1 ++ writes l2.
Proof. apply omap_app. Qed.

Lemma writes_receiveds (evs : list ReadEvent) : writes (receiveds evs) = [].
Proof. induction evs as [|ev evs IH]; [done|]. by cbn. Qed.

(** X6.  The command loop writes every command of its table, once each
    and in the order of the table, each followed by carriage return and
    line feed, and it never raises: a command whose exchange fails does
    not keep the later ones from being sent. *)
Theorem every_command_is_written (hostname : string)
    (items : list (string * Gauge)) (w : World) :
  ∃ w' added,
    for_commands hostname items w = (Return tt, w') ∧
    trace w' = trace w ++ added ∧
    writes added = (λ item, item.1 +:+ CRLF) <$> items.
Proof.
  destruct (for_commands_spec hostname items w) as (w' & segs & Hrun & Htr & Hsegs).
  exists w', (concat segs). repeat split; [done..|]. clear Hrun Htr.
  induction Hsegs as [|[command gauge] seg items segs (reads & response & -> & _) _ IH];
    [done|].
  cbn [concat fmap list_fmap fst]. rewrite writes_app, IH.
  change (writes (Sent (command +:+ CRLF) :: ?l)) with ((command +:+ CRLF) :: writes l).
  rewrite writes_app, writes_receiveds. cbn [snd].
  by destruct (parse_result hostname command gauge response).
Qed.

(** X7.  When the connection attempt fails, by timeout or otherwise, the
    poll returns at once and nothing has happened: nothing is written,
    read, published or closed. *)
Theorem failed_connection_changes_nothing (hostname : string) (port : Z)
    (username password : string) (w : World) (e : Exn) :
  connect w = Raise e →
  fetch_and_update_metrics_via_telnet_sync hostname port username password w =
    (Return tt, w).
Proof.
  intros Hconn. unfold fetch_and_update_metrics_via_telnet_sync, try_except.
  by rewrite fetch_unfold, Hconn.
Qed.

Lemma failed_connection_changes_nothing_witness :
  fetch_and_update_metrics_via_telnet_sync "192.168.1.1" 23 "admin" "secret"
    (mkWorld 100 (Raise TimeoutError) [mkRead 0.5 (Chunk "login: ")] [] []) =
    (Return tt, mkWorld 100 (Raise TimeoutError) [mkRead 0.5 (Chunk "login: ")] [] []).
Proof. by apply (failed_connection_changes_nothing _ _ _ _ _ TimeoutError). Defined.

(** X8.  When the first scan shows neither "login:" nor "username:" in
    any letter case, the session closes the connection and returns
    without having written anything: no credential goes to a device that
    has not asked for it. *)
Theorem no_login_prompt_writes_nothing (hostname : string) (port : Z)
    (username password : string) (w w1 : World) (initial_response : string) :
  connect w = Return tt →
  wait_for_prompt 10 (log Opened w) = (Return initial_response, w1) →
  ¬ occurs "login:" (Py.lower initial_response) →
  ¬ occurs "username:" (Py.lower initial_response) →
  fetch_and_update_metrics_via_telnet hostname port username password w =
    (Return tt, log Closed w1) ∧
  ∃ reads,
    trace (log Closed w1) = trace w ++ [Opened] ++ receiveds reads ++ [Closed].
Proof.
  intros Hconn Hscan Hlogin Huser. split.
  - rewrite fetch_unfold, Hconn, Hscan.
    apply contains_false in Hlogin, Huser. by rewrite Hlogin, Huser.
  - apply wait_for_prompt_trace in Hscan as (reads & ? & _ & Htr & _).
    exists reads. rewrite !trace_log in *. rewrite Htr. by rewrite <- !app_assoc.
Qed.

Lemma no_login_prompt_writes_nothing_witness :
  ∃ w1,
    fetch_and_update_metrics_via_telnet "192.168.1.1" 23 "admin" "secret"
      (mkWorld 100 (Return tt) [mkRead 0.5 (Chunk "BusyBox> ")] [] []) =
      (Return tt, log Closed w1) ∧
    trace (log Closed w1) = [Opened; Received (Chunk "BusyBox> "); Closed].
Proof.
  eexists. split.
  - refine (proj1 (no_login_prompt_writes_nothing "192.168.1.1" 23 "admin" "secret"
                     (mkWorld 100 (Return tt) [mkRead 0.5 (Chunk "BusyBox> ")] [] [])
                     _ "BusyBox> " _ _ _ _)).
    + reflexivity.
    + vm_compute. reflexivity.
    + by apply contains_false.
    + by apply contains_false.
  - vm_compute. reflexivity.
Defined.

(** *** Closing the connection *)

Lemma read_all_faults (pre : list ReadEvent) (w : World) :
  faults (read_all pre w) = faults w.
Proof.
  revert w. induction pre as [|ev pre IH]; intros w; [done|]. cbn. by rewrite IH.
Qed.

Lemma advances_refl (w : World) : advances w w.
Proof.
  exists [], 0. rewrite app_nil_r. repeat split. by intros ?%elem_of_nil.
Qed.

Lemma advances_trans (w w1 w2 : World) : advances w w1 → advances w1 w2 → advances w w2.
Proof.
  intros (a1 & n1 & Htr1 & Hc1 & Hf1) (a2 & n2 & Htr2 & Hc2 & Hf2).
  exists (a1 ++ a2), (n1 + n2). repeat split.
  - by rewrite Htr2, Htr1, <- app_assoc.
  - intros [?|?]%elem_of_app; tauto.
  - by rewrite Hf2, Hf1, drop_drop.
Qed.

Lemma advances_log (a : Action) (w : World) : a ≠ Closed → advances w (log a w).
Proof.
  intros Ha. exists [a], 0. repeat split.
  by intros <-%list_elem_of_singleton.
Qed.

Lemma advances_await (w w' : World) (r : Outcome unit) :
  writer_await w = (r, w') → advances w w'.
Proof.
  unfold writer_await. destruct (faults w) as [|f rest] eqn:Hf.
  - intros [= <- <-]. apply advances_refl.
  - intros Hrun. exists [], 1. rewrite app_nil_r, Hf.
    destruct f; injection Hrun as <- <-; (repeat split; by intros ?%elem_of_nil).
Qed.

Lemma advances_scan (timeout : Q) (w w' : World) (r : Outcome string) :
  wait_for_prompt timeout w = (r, w') → advances w w'.
Proof.
  destruct (wait_for_prompt_reads timeout w) as (buffer & k & -> & _).
  intros [= <- <-]. exists (receiveds (take k (incoming w))), 0.
  rewrite read_all_trace, read_all_faults. repeat split.
  unfold receiveds. intros (ev & Hev & _)%list_elem_of_fmap. discriminate Hev.
Qed.

Lemma advances_execute (command : string) (timeout : Q) (w w' : World)
    (r : Outcome string) :
  execute_telnet_command command timeout w = (r, w') → advances w w'.
Proof.
  unfold execute_telnet_command, try_except, mbind, M_bind, bind, writer_write.
  destruct (writer_drain (log (Sent (command +:+ CRLF)) w)) as [r1 w1] eqn:Hdrain.
  pose proof (advances_trans _ _ _ (advances_log (Sent (command +:+ CRLF)) w ltac:(done))
                (advances_await _ _ _ Hdrain)) as A1.
  destruct r1 as [[]|e]; [|by intros [= <- <-]].
  destruct (wait_for_prompt timeout w1) as [r2 w2] eqn:Hscan.
  pose proof (advances_trans _ _ _ A1 (advances_scan _ _ _ _ Hscan)) as A2.
  destruct r2; by intros [= <- <-].
Qed.

Lemma advances_for_commands (hostname : string) (items : list (string * Gauge))
    (w w' : World) (r : Outcome unit) :
  for_commands hostname items w = (r, w') → advances w w'.
Proof.
  revert w. induction items as [|[command gauge] items IH]; intros w.
  - intros [= <- <-]. apply advances_refl.
  - cbn [for_commands]. unfold mbind, M_bind, bind.
    destruct (execute_telnet_command command 30 w) as [r1 w1] eqn:Hexec.
    pose proof (advances_execute _ _ _ _ _ Hexec) as A1.
    destruct r1 as [response|e]; [|by intros [= <- <-]].
    destruct (parse_result hostname command gauge response) as [o|].
    + unfold gauge_set at 1. intros Hrun%IH.
      exact (advances_trans _ _ _ A1
               (advances_trans _ _ _ (advances_log (Published o) w1 ltac:(done)) Hrun)).
    + unfold mret, M_ret, ret at 1. intros Hrun%IH.
      exact (advances_trans _ _ _ A1 Hrun).
Qed.

Lemma advances_no_fault (w w' : World) :
  advances w w' → Forall (λ f, f = None) (faults w) →
  Forall (λ f, f = None) (faults w').
Proof. intros (_ & n & _ & _ & ->) Hf. by apply Forall_drop. Qed.

Lemma await_ok (w w' : World) (r : Outcome unit) :
  Forall (λ f, f = None) (faults w) → writer_await w = (r, w') → r = Return tt.
Proof.
  unfold writer_await. destruct (faults w) as [|f rest]; [by intros _ [= <- _]|].
  intros [-> _]%Forall_cons. by intros [= <- _].
Qed.

(** The shape of the history of a session: entries that are no close,
    then the close or nothing; the close is there when the connection
    was opened and no await on the writer raised. *)
Lemma fetch_shape (hostname : string) (port : Z) (username password : string)
    (w : World) :
  ∃ w' body fin,
    fetch_and_update_metrics_via_telnet hostname port username password w =
      (Return tt, w') ∧
    trace w' = trace w ++ body ++ fin ∧
    (Closed ∉ body) ∧
    (fin = [] ∨ fin = [Closed]) ∧
    (connect w = Return tt → Forall (λ f, f = None) (faults w) → fin = [Closed]).
Proof.
  assert (∀ w', advances w w' →
            ∃ body, trace w' = trace w ++ body ++ [] ∧ (Closed ∉ body)) as Hopen.
  { intros w' (added & n & Htr & Hc & _). exists added. by rewrite app_nil_r. }
  assert (∀ w', advances w w' →
            ∃ body, trace (log Closed w') = trace w ++ body ++ [Closed] ∧ (Closed ∉ body))
    as Hclosed.
  { intros w' (added & n & Htr & Hc & _). exists added.
    by rewrite trace_log, Htr, <- app_assoc. }
  rewrite fetch_unfold. destruct (connect w) as [[]|e] eqn:Hconn.
  2:{ exists w, [], []. rewrite app_nil_r. repeat split; [by intros ?%elem_of_nil|auto|done]. }
  destruct (wait_for_prompt 10 (log Opened w)) as [r1 w1] eqn:Hscan1.
  pose proof (advances_trans _ _ _ (advances_log Opened w ltac:(done))
                (advances_scan _ _ _ _ Hscan1)) as A1.
  destruct (wait_for_prompt_trace _ _ _ _ Hscan1) as (? & initial_response & -> & _).
  destruct (_ || _).
  2:{ destruct (Hclosed _ A1) as (body & Htr & Hc).
      exists (log Closed w1), body, [Closed]. repeat split; auto. }
  destruct (writer_drain (log (Sent (username +:+ CRLF)) w1)) as [r w1'] eqn:Hdrain.
  pose proof (advances_trans _ _ _ A1 (advances_log (Sent (username +:+ CRLF)) w1 ltac:(done)))
    as A1'.
  pose proof (advances_trans _ _ _ A1' (advances_await _ _ _ Hdrain)) as A2.
  destruct r as [[]|e].
  2:{ destruct (Hopen _ A2) as (body & Htr & Hc).
      exists w1', body, []. repeat split; [done..|auto|].
      intros _ Hf. pose proof (advances_no_fault _ _ A1' Hf) as Hf'.
      by pose proof (await_ok _ _ _ Hf' Hdrain). }
  destruct (wait_for_prompt 10 w1') as [r2 w2] eqn:Hscan2.
  pose proof (advances_trans _ _ _ A2 (advances_scan _ _ _ _ Hscan2)) as A3.
  destruct (wait_for_prompt_trace _ _ _ _ Hscan2) as (? & password_response & -> & _).
  destruct (Py.contains _ _).
  2:{ destruct (Hclosed _ A3) as (body & Htr & Hc).
      exists (log Closed w2), body, [Closed]. repeat split; auto. }
  destruct (writer_drain (log (Sent (password +:+ CRLF)) w2)) as [r w2'] eqn:Hdrain2.
  pose proof (advances_trans _ _ _ A3 (advances_log (Sent (password +:+ CRLF)) w2 ltac:(done)))
    as A3'.
  pose proof (advances_trans _ _ _ A3' (advances_await _ _ _ Hdrain2)) as A4.
  destruct r as [[]|e].
  2:{ destruct (Hopen _ A4) as (body & Htr & Hc).
      exists w2', body, []. repeat split; [done..|auto|].
      intros _ Hf. pose proof (advances_no_fault _ _ A3' Hf) as Hf'.
      by pose proof (await_ok _ _ _ Hf' Hdrain2). }
  destruct (wait_for_prompt 10 w2') as [r3 w3] eqn:Hscan3.
  pose proof (advances_trans _ _ _ A4 (advances_scan _ _ _ _ Hscan3)) as A5.
  destruct (wait_for_prompt_trace _ _ _ _ Hscan3) as (? & shell_response & -> & _).
  destruct (for_commands hostname commands w3) as [r w4] eqn:Hfor.
  pose proof (advances_trans _ _ _ A5 (advances_for_commands _ _ _ _ _ Hfor)) as A6.
  destruct (for_commands_spec hostname commands w3) as (? & ? & Hfor' & _).
  rewrite Hfor in Hfor'. injection Hfor' as -> <-.
  destruct (Hclosed _ A6) as (body & Htr & Hc).
  destruct (writer_wait_closed (log Closed w4)) as [r w5] eqn:Hclose.
  apply writer_await_trace in Hclose.
  exists w5, body, [Closed]. cbn [snd]. rewrite Hclose. repeat split; auto.
Qed.

(** X9.  Every poll closes its connection at most once, and the close is
    the last thing it does: nothing is read, written or published after
    it. *)
Theorem connection_closed_last_and_once (hostname : string) (port : Z)
    (username password : string) (w : World) :
  ∃ w' body fin,
    fetch_and_update_metrics_via_telnet_sync hostname port username password w =
      (Return tt, w') ∧
    trace w' = trace w ++ body ++ fin ∧
    (Closed ∉ body) ∧
    (fin = [] ∨ fin = [Closed]).
Proof.
  destruct (fetch_shape hostname port username password w)
    as (w' & body & fin & Hrun & Htr & Hc & Hfin & _).
  exists w', body, fin. repeat split; [|done..].
  unfold fetch_and_update_metrics_via_telnet_sync, try_except. by rewrite Hrun.
Qed.

(** X10.  When the connection is opened and no await on the writer
    raises, the poll closes the connection, whatever the reads do (text
    or none, time-outs, a closed stream, a read that raises) and
    whichever way the session ends. *)
Theorem connection_closed_when_no_write_fails (hostname : string) (port : Z)
    (username password : string) (w : World) :
  connect w = Return tt →
  Forall (λ f, f = None) (faults w) →
  ∃ w' body,
    fetch_and_update_metrics_via_telnet_sync hostname port username password w =
      (Return tt, w') ∧
    trace w' = trace w ++ body ++ [Closed] ∧
    (Closed ∉ body).
Proof.
  intros Hconn Hf.
  destruct (fetch_shape hostname port username password w)
    as (w' & body & fin & Hrun & Htr & Hc & _ & Hfin).
  rewrite (Hfin Hconn Hf) in Htr.
  exists w', body. repeat split; [|done..].
  unfold fetch_and_update_metrics_via_telnet_sync, try_except. by rewrite Hrun.
Qed.

Lemma connection_closed_when_no_write_fails_witness :
  ∃ w' body,
    fetch_and_update_metrics_via_telnet_sync "192.168.1.1" 23 "admin" "secret"
      (mkWorld 100 (Return tt) [mkRead 0.5 (Chunk "login: "); mkRead 0.5 ReadRaise]
               [None; None] []) = (Return tt, w') ∧
    trace w' = [] ++ body ++ [Closed] ∧
    (Closed ∉ body).
Proof.
  apply (connection_closed_when_no_write_fails "192.168.1.1" 23 "admin" "secret"
           (mkWorld 100 (Return tt) [mkRead 0.5 (Chunk "login: "); mkRead 0.5 ReadRaise]
                    [None; None] [])).
  - reflexivity.
  - by repeat constructor.
Defined.

(** *** A session depends on its device only *)

Lemma read_all_connect (pre : list ReadEvent) (w : World) :
  connect (read_all pre w) = connect w.
Proof.
  revert w. induction pre as [|ev pre IH]; intros w; [done|]. cbn. by rewrite IH.
Qed.

Lemma read_all_take_incoming (k : nat) (w : World) :
  incoming (read_all (take k (incoming w)) w) = drop k (incoming w).
Proof. apply read_all_incoming. by rewrite take_drop. Qed.

Lemma same_device_read_all (k : nat) (w1 w2 : World) :
  same_device w1 w2 →
  same_device (read_all (take k (incoming w1)) w1) (read_all (take k (incoming w2)) w2).
Proof.
  intros (Hc & Hi & Hf). repeat split.
  - by rewrite !read_all_connect.
  - by rewrite !read_all_take_incoming, Hi.
  - by rewrite !read_all_faults.
Qed.

(** The loop of the scanner looks at the time it has spent, not at the
    clock. *)
Lemma loop_same_device (fuel : nat) (timeout start1 start2 : Q) (buffer : string)
    (w1 w2 : World) :
  same_device w1 w2 →
  (clock w1 - start1 == clock w2 - start2)%Q →
  ∃ r k,
    wait_for_prompt_loop fuel timeout start1 buffer w1 =
      (r, read_all (take k (incoming w1)) w1) ∧
    wait_for_prompt_loop fuel timeout start2 buffer w2 =
      (r, read_all (take k (incoming w2)) w2).
Proof.
  revert buffer w1 w2. induction fuel as [|fuel IH]; intros buffer w1 w2 Hsame Hclock.
  { by exists (Return buffer), 0. }
  rewrite !loop_unfold.
  destruct (Qlt_le_dec (clock w1 - start1) timeout) as [Hlt1|Hge1],
           (Qlt_le_dec (clock w2 - start2) timeout) as [Hlt2|Hge2]; try lra.
  2:{ by exists (Return buffer), 0. }
  destruct Hsame as (Hc & Hi & Hf).
  destruct (incoming w1) as [|ev rest] eqn:Hin1; symmetry in Hi; rewrite Hi.
  { rewrite (body_closed _ _ Hin1), (body_closed _ _ Hi). by exists (Return buffer), 0. }
  rewrite (body_read _ _ _ _ Hin1), (body_read _ _ _ _ Hi).
  assert (same_device (read_one ev w1) (read_one ev w2)) as Hsame'.
  { repeat split; [done| |done]. by rewrite !incoming_read_one, Hin1, Hi. }
  assert (clock (read_one ev w1) - start1 == clock (read_one ev w2) - start2)%Q as Hclock'
    by (cbn; lra).
  assert (∀ b, ∃ r k,
            wait_for_prompt_loop fuel timeout start1 b (read_one ev w1) =
              (r, read_all (take k (ev :: rest)) w1) ∧
            wait_for_prompt_loop fuel timeout start2 b (read_one ev w2) =
              (r, read_all (take k (ev :: rest)) w2)) as Hgo.
  { intros b. destruct (IH b _ _ Hsame' Hclock') as (r & k & -> & ->).
    rewrite !incoming_read_one, Hin1, Hi. by exists r, (S k). }
  destruct (result ev) as [data| |].
  - destruct (Py.is_empty data); [by exists (Return buffer), 1|].
    destruct (prompt_like _); [by exists (Return (buffer +:+ data)), 1|]. apply Hgo.
  - apply Hgo.
  - by exists (Raise Error), 1.
Qed.

Lemma fi_wait_for_prompt (timeout : Q) : frame_invariant (wait_for_prompt timeout).
Proof.
  intros w1 w2 Hsame. rewrite !wait_for_prompt_unfold.
  assert (length (incoming w1) = length (incoming w2)) as Hlen
    by (by destruct Hsame as (_ & -> & _)).
  rewrite Hlen.
  destruct (loop_same_device (S (length (incoming w2))) timeout (clock w1) (clock w2)
              "" w1 w2 Hsame) as (r & k & -> & ->); [lra|].
  pose proof (same_device_read_all k _ _ Hsame) as Hsame'.
  assert (receiveds (take k (incoming w1)) = receiveds (take k (incoming w2))) as Hrec
    by (by destruct Hsame as (_ & -> & _)).
  destruct r as [b|e];
    [exists (Return b)|exists (Return "")];
    exists (receiveds (take k (incoming w1))), (read_all (take k (incoming w1)) w1),
           (read_all (take k (incoming w2)) w2);
    (repeat split; [apply Hsame'..|by rewrite read_all_trace|by rewrite read_all_trace, Hrec]).
Qed.

Lemma fi_ret {A : Type} (a : A) : frame_invariant (mret a).
Proof.
  intros w1 w2 Hsame. exists (Return a), [], w1, w2. by rewrite !app_nil_r.
Qed.

Lemma fi_raise {A : Type} (e : Exn) : frame_invariant (@raise A e).
Proof.
  intros w1 w2 Hsame. exists (Raise e), [], w1, w2. by rewrite !app_nil_r.
Qed.

Lemma fi_bind {A B : Type} (m : M A) (k : A → M B) :
  frame_invariant m → (∀ a, frame_invariant (k a)) → frame_invariant (m ≫= k).
Proof.
  intros Hm Hk w1 w2 Hsame. unfold mbind, M_bind, bind.
  destruct (Hm _ _ Hsame) as (r & a1 & w1' & w2' & -> & -> & Hsame' & Htr1 & Htr2).
  destruct r as [a|e].
  - destruct (Hk a _ _ Hsame') as (r & a2 & w1'' & w2'' & -> & -> & Hsame'' & Htr1' & Htr2').
    exists r, (a1 ++ a2), w1'', w2''. repeat split; [apply Hsame''..| |].
    + by rewrite Htr1', Htr1, <- app_assoc.
    + by rewrite Htr2', Htr2, <- app_assoc.
  - by exists (Raise e), a1, w1', w2'.
Qed.

Lemma fi_try_except {A : Type} (body : M A) (handler : Exn → M A) :
  frame_invariant body → (∀ e, frame_invariant (handler e)) →
  frame_invariant (try_except body handler).
Proof.
  intros Hm Hk w1 w2 Hsame. unfold try_except.
  destruct (Hm _ _ Hsame) as (r & a1 & w1' & w2' & -> & -> & Hsame' & Htr1 & Htr2).
  destruct r as [a|e].
  - by exists (Return a), a1, w1', w2'.
  - destruct (Hk e _ _ Hsame') as (r & a2 & w1'' & w2'' & -> & -> & Hsame'' & Htr1' & Htr2').
    exists r, (a1 ++ a2), w1'', w2''. repeat split; [apply Hsame''..| |].
    + by rewrite Htr1', Htr1, <- app_assoc.
    + by rewrite Htr2', Htr2, <- app_assoc.
Qed.

Lemma fi_log (a : Action) : frame_invariant (λ w, (Return tt, log a w)).
Proof.
  intros w1 w2 Hsame. by exists (Return tt), [a], (log a w1), (log a w2).
Qed.

Lemma fi_writer_await : frame_invariant writer_await.
Proof.
  intros w1 w2 (Hc & Hi & Hf). unfold writer_await. rewrite Hf.
  destruct (faults w2) as [|[e|] rest] eqn:Hf2.
  - exists (Return tt), [], w1, w2.
    repeat split; rewrite ?app_nil_r; congruence.
  - eexists (Raise e), [], _, _.
    repeat split; cbn; rewrite ?app_nil_r; congruence.
  - eexists (Return tt), [], _, _.
    repeat split; cbn; rewrite ?app_nil_r; congruence.
Qed.

Lemma fi_open_connection (hostname : string) (port : Z) :
  frame_invariant (open_connection hostname port).
Proof.
  intros w1 w2 Hsame. unfold open_connection.
  destruct Hsame as (Hc & Hi & Hf). rewrite Hc. destruct (connect w2) as [[]|e] eqn:Hc2.
  - exists (Return tt), [Opened], (log Opened w1), (log Opened w2).
    repeat split; cbn; congruence.
  - exists (Raise e), [], w1, w2.
    repeat split; rewrite ?app_nil_r; congruence.
Qed.

Lemma fi_execute_telnet_command (command : string) (timeout : Q) :
  frame_invariant (execute_telnet_command command timeout).
Proof.
  apply fi_try_except; [|intros; apply fi_ret].
  apply fi_bind; [apply fi_log|intros _].
  apply fi_bind; [apply fi_writer_await|intros _]. apply fi_wait_for_prompt.
Qed.

Lemma fi_for_commands (hostname : string) (items : list (string * Gauge)) :
  frame_invariant (for_commands hostname items).
Proof.
  induction items as [|[command gauge] items IH]; [apply fi_ret|].
  cbn [for_commands]. apply fi_bind; [apply fi_execute_telnet_command|intros response].
  apply fi_bind; [|by intros _].
  destruct (parse_result _ _ _ _); [apply fi_log|apply fi_ret].
Qed.

Lemma fi_fetch (hostname : string) (port : Z) (username password : string) :
  frame_invariant
    (fetch_and_update_metrics_via_telnet_sync hostname port username password).
Proof.
  apply fi_try_except; [|intros; apply fi_ret].
  apply fi_try_except; [|intros; apply fi_ret].
  apply fi_bind; [apply fi_open_connection|intros _].
  apply fi_bind; [apply fi_wait_for_prompt|intros initial_response].
  destruct (_ || _); [|apply fi_log].
  apply fi_bind; [apply fi_log|intros _].
  apply fi_bind; [apply fi_writer_await|intros _].
  apply fi_bind; [apply fi_wait_for_prompt|intros password_response].
  destruct (Py.contains _ _); [|apply fi_log].
  apply fi_bind; [apply fi_log|intros _].
  apply fi_bind; [apply fi_writer_await|intros _].
  apply fi_bind; [apply fi_wait_for_prompt|intros shell_response].
  apply fi_bind; [apply fi_for_commands|intros _].
  apply fi_bind; [apply fi_log|intros _]. apply fi_writer_await.
Qed.

(** X11.  What a poll does depends on its device only: in two worlds
    where the connection attempt, the reads and the writes will go the
    same way, the poll adds the same entries to the history (the same
    writes, reads, publications and close), whatever the clock shows
    when it starts and whatever has happened before. *)
Theorem poll_depends_on_its_device_only (hostname : string) (port : Z)
    (username password : string) (w1 w2 : World) :
  same_device w1 w2 →
  ∃ added w1' w2',
    fetch_and_update_metrics_via_telnet_sync hostname port username password w1 =
      (Return tt, w1') ∧
    fetch_and_update_metrics_via_telnet_sync hostname port username password w2 =
      (Return tt, w2') ∧
    trace w1' = trace w1 ++ added ∧
    trace w2' = trace w2 ++ added ∧
    same_device w1' w2'.
Proof.
  intros Hsame.
  destruct (fi_fetch hostname port username password _ _ Hsame)
    as (r & added & w1' & w2' & Hrun1 & Hrun2 & Hsame' & Htr1 & Htr2).
  destruct (fetch_shape hostname port username password w1) as (w & _ & _ & Hrun & _).
  assert (r = Return tt) as ->.
  { unfold fetch_and_update_metrics_via_telnet_sync, try_except in Hrun1.
    rewrite Hrun in Hrun1. by injection Hrun1 as <- _. }
  by exists added, w1', w2'.
Qed.

Lemma poll_depends_on_its_device_only_witness :
  ∃ added w1' w2',
    fetch_and_update_metrics_via_telnet_sync "192.168.1.1" 23 "admin" "secret"
      session_world = (Return tt, w1') ∧
    fetch_and_update_metrics_via_telnet_sync "192.168.1.1" 23 "admin" "secret"
      (mkWorld 86400 (connect session_world) (incoming session_world)
               (faults session_world) [Opened; Closed]) = (Return tt, w2') ∧
    trace w1' = trace session_world ++ added ∧
    trace w2' = [Opened; Closed] ++ added ∧
    same_device w1' w2'.
Proof.
  apply (poll_depends_on_its_device_only "192.168.1.1" 23 "admin" "secret" session_world
           (mkWorld 86400 (connect session_world) (incoming session_world)
                    (faults session_world) [Opened; Closed])).
  by repeat split.
Defined.

(** ** The configuration *)

Lemma split_nonempty (sep : ascii) (s : string) : Str.split sep s ≠ [].
Proof.
  induction s as [|c s IH]; cbn; [done|].
  destruct (Ascii.eqb c sep); [done|]. by destruct (Str.split sep s).
Qed.

Lemma split_no_sep (sep : ascii) (s : string) :
  count_char sep s = 0 → Str.split sep s = [s].
Proof.
  induction s as [|c s IH]; cbn; [done|].
  destruct (Ascii.eqb c sep); [done|]. intros Hs. by rewrite (IH Hs).
Qed.

Lemma split_app_sep (sep : ascii) (s t : string) :
  count_char sep s = 0 →
  Str.split sep (s +:+ String sep t) = s :: Str.split sep t.
Proof.
  induction s as [|c s IH]; rewrite ?str_app_cons, ?str_app_nil_l; cbn.
  - by rewrite Ascii.eqb_refl.
  - destruct (Ascii.eqb c sep); [done|]. intros Hs. by rewrite (IH Hs).
Qed.

Lemma split_join (sep : ascii) (items : list string) :
  items ≠ [] → Forall (λ item, count_char sep item = 0) items →
  Str.split sep (join (String sep "") items) = items.
Proof.
  induction items as [|item items IH]; [done|]. intros _ [Hitem Hitems]%Forall_cons.
  destruct items as [|item' items].
  - by apply split_no_sep.
  - change (join (String sep "") (item :: item' :: items))
      with (item +:+ String sep "" +:+ join (String sep "") (item' :: items)).
    rewrite str_app_cons, str_app_nil_l, (split_app_sep _ _ _ Hitem). f_equal. by apply IH.
Qed.

Lemma length_split (sep : ascii) (s : string) :
  length (Str.split sep s) = S (count_char sep s).
Proof.
  induction s as [|c s IH]; cbn; [done|].
  destruct (Ascii.eqb c sep); cbn; [by rewrite IH|].
  pose proof (split_nonempty sep s). destruct (Str.split sep s); [done|]. by cbn in *.
Qed.

Lemma convert_each_length {A : Type} (convert_func : string → Outcome A)
    (xs : list string) (l : list A) :
  convert_each convert_func xs = Return l → length l = length xs.
Proof.
  revert l. induction xs as [|x xs IH]; intros l; cbn; [by intros [= <-]|].
  destruct (convert_func x); [|done].
  destruct (convert_each convert_func xs) as [l'|]; [|done].
  intros [= <-]. cbn. by rewrite (IH l').
Qed.

Lemma convert_each_str (xs : list string) : convert_each py_str xs = Return xs.
Proof. induction xs as [|x xs IH]; [done|]. cbn. by rewrite IH. Qed.

(** X12.  A list written to an environment variable with commas between
    its entries is read back as it was, provided no entry holds a comma
    or has white space at either end, and the text written is not empty
    (the one list lost is the list of one empty entry). *)
Theorem env_list_round_trip (environ : Environ) (env_var : string)
    (items : list string) (default_value : option string) :
  items ≠ [] →
  Forall (λ item, count_char "," item = 0 ∧ Str.strip item = item) items →
  join "," items ≠ "" →
  environ !! env_var = Some (join "," items) →
  parse_env_list environ env_var None py_str default_value = Return items.
Proof.
  intros Hne Hitems Hjoin Henv. unfold parse_env_list. rewrite Henv.
  destruct (join "," items) as [|c v] eqn:Hj; [done|]. rewrite <- Hj.
  rewrite (split_join "," items Hne).
  2:{ eapply Forall_impl; [exact Hitems|]. by intros ? [? _]. }
  rewrite convert_each_str. f_equal.
  clear -Hitems. induction Hitems as [|item items [_ Hitem] _ IH]; [done|].
  cbn. by rewrite Hitem, IH.
Qed.

Lemma env_list_round_trip_witness :
  parse_env_list (<["GPON_HOSTNAMES" := "192.168.1.1,ont.example.net"]> ∅)
    "GPON_HOSTNAMES" None py_str None =
    Return ["192.168.1.1"; "ont.example.net"].
Proof.
  apply (env_list_round_trip _ _ ["192.168.1.1"; "ont.example.net"]).
  - done.
  - by repeat constructor.
  - done.
  - reflexivity.
Defined.

(** X13.  When the flag is absent and the environment variable holds a
    text that is not empty, the list read has one entry more than the
    text has commas: an entry is made of every piece, the empty ones too
    (a doubled or a trailing comma gives an empty entry). *)
Theorem env_list_has_one_entry_per_piece {A : Type} (environ : Environ)
    (env_var value : string) (convert_func : string → Outcome A)
    (default_value : option A) (l : list A) :
  environ !! env_var = Some value →
  value ≠ "" →
  parse_env_list environ env_var None convert_func default_value = Return l →
  length l = S (count_char "," value).
Proof.
  intros Henv Hvalue. unfold parse_env_list. rewrite Henv.
  destruct value as [|c v]; [done|].
  intros Hl%convert_each_length. by rewrite Hl, length_fmap, length_split.
Qed.

Lemma env_list_has_one_entry_per_piece_witness :
  length ["192.168.1.1"; ""] = S (count_char "," "192.168.1.1,").
Proof.
  apply (env_list_has_one_entry_per_piece (<["GPON_HOSTNAMES" := "192.168.1.1,"]> ∅)
           "GPON_HOSTNAMES" "192.168.1.1," py_str None).
  - reflexivity.
  - done.
  - reflexivity.
Defined.

Lemma lengths_differ_false (a b c d : nat) :
  lengths_differ [a; b; c; d] = false ↔ a = b ∧ b = c ∧ c = d.
Proof.
  unfold lengths_differ. rewrite negb_false_iff, Nat.eqb_eq. cbn. split.
  - intros (x & Hx)%size_1_elem_of.
    assert (a = x ∧ b = x ∧ c = x ∧ d = x) as (-> & -> & -> & ->); [|done].
    repeat split; apply (elem_of_singleton (C := gset nat)); rewrite <- Hx; set_solver.
  - intros (-> & -> & ->).
    assert (({[d]} ∪ ({[d]} ∪ ({[d]} ∪ ({[d]} ∪ ∅))) : gset nat) = {[d]}) as ->
      by set_solver.
    apply size_singleton.
Qed.

Lemma apply_default_with_default_nonempty {A : Type} (environ : Environ)
    (env_var : string) (current : option (list A)) (convert_func : string → Outcome A)
    (d : A) (l : list A) :
  apply_default environ env_var current convert_func (Some d) = Return l → l ≠ [].
Proof.
  assert (parse_env_list environ env_var current convert_func (Some d) = Return l →
          l ≠ []) as Hparse.
  { unfold parse_env_list. destruct current as [[|a l']|]; try (by intros [= <-]);
      (destruct (environ !! env_var) as [[|c v]|]; try (by intros [= <-]);
       intros Hl%convert_each_length; rewrite length_fmap, length_split in Hl;
       by destruct l). }
  unfold apply_default. destruct current as [[|a l']|]; [done| |done]. by intros [= <-].
Qed.

Lemma load_config_Started (int : string → Outcome Z) (environ : Environ)
    (args : Args) (cfg : Config) :
  load_config int environ args = Started cfg →
  cfg_hostname cfg ≠ [] ∧
  length (cfg_port cfg) = length (cfg_hostname cfg) ∧
  length (cfg_user cfg) = length (cfg_hostname cfg) ∧
  length (cfg_password cfg) = length (cfg_hostname cfg).
Proof.
  unfold load_config.
  destruct (apply_default _ "GPON_HOSTNAMES" _ _ _) as [hostname|]; [|done].
  destruct (apply_default _ "GPON_PORTS" _ _ _) as [port|]; [|done].
  destruct (apply_default _ "GPON_USERS" _ _ _) as [user|]; [|done].
  destruct (apply_default _ "GPON_PASSWORDS" _ _ _) as [password|]; [|done].
  repeat case_bool_decide; try done.
  destruct (lengths_differ _) eqn:Hlen; [done|].
  apply lengths_differ_false in Hlen as (? & ? & ?).
  intros [= <-]. cbn. repeat split; [done|congruence..].
Qed.

(** X14.  A configuration that is accepted at start holds four lists
    that are not empty and have the same length: every index of the host
    list is an index of the port, user and password lists. *)
Theorem accepted_config_is_aligned (int : string → Outcome Z) (environ : Environ)
    (args : Args) (cfg : Config) :
  load_config int environ args = Started cfg →
  cfg_hostname cfg ≠ [] ∧ cfg_port cfg ≠ [] ∧
  cfg_user cfg ≠ [] ∧ cfg_password cfg ≠ [] ∧
  length (cfg_port cfg) = length (cfg_hostname cfg) ∧
  length (cfg_user cfg) = length (cfg_hostname cfg) ∧
  length (cfg_password cfg) = length (cfg_hostname cfg).
Proof.
  intros (Hne & Hp & Hu & Hpw)%load_config_Started.
  assert (length (cfg_hostname cfg) ≠ 0) as Hlen by (by destruct (cfg_hostname cfg)).
  repeat split; try done; intros Hnil; rewrite Hnil in *; cbn in *; lia.
Qed.

Lemma accepted_config_is_aligned_witness :
  ["192.168.1.1"] ≠ [] ∧ [23%Z] ≠ [] ∧ ["admin"] ≠ [] ∧ ["secret"] ≠ [] ∧
  length [23%Z] = 1 ∧ length ["admin"] = 1 ∧ length ["secret"] = 1.
Proof.
  apply (accepted_config_is_aligned (λ _, Raise Error)
           (<["GPON_HOSTNAMES" := "192.168.1.1"]>
              (<["GPON_USERS" := "admin"]> (<["GPON_PASSWORDS" := "secret"]> ∅)))
           (mkArgs None None None None)
           (mkConfig ["192.168.1.1"] [23%Z] ["admin"] ["secret"])).
  reflexivity.
Defined.

(** X15.  The start never fails for want of a port: whatever the command
    line and the environment hold, the port list is not empty when it is
    checked (the default 23 stands in), so the message that the port is
    required is never given. *)
Theorem port_is_never_missing (int : string → Outcome Z) (environ : Environ)
    (args : Args) :
  load_config int environ args ≠
    ParserError "--port is required (or set GPON_PORTS environment variable)".
Proof.
  unfold load_config.
  destruct (apply_default _ "GPON_HOSTNAMES" _ _ _) as [hostname|]; [|done].
  destruct (apply_default _ "GPON_PORTS" _ _ _) as [port|] eqn:Hport; [|done].
  apply apply_default_with_default_nonempty in Hport.
  destruct (apply_default _ "GPON_USERS" _ _ _) as [user|]; [|done].
  destruct (apply_default _ "GPON_PASSWORDS" _ _ _) as [password|]; [|done].
  repeat case_bool_decide; try done.
  by destruct (lengths_differ _).
Qed.

(** X16.  With no port on the command line and none in the environment,
    only a configuration of a single device is accepted, on port 23: the
    default port does not spread over several devices. *)
Theorem default_port_serves_one_device (int : string → Outcome Z) (environ : Environ)
    (args : Args) (cfg : Config) :
  args_port args = None →
  environ !! "GPON_PORTS" = None →
  load_config int environ args = Started cfg →
  cfg_port cfg = [23%Z] ∧ length (cfg_hostname cfg) = 1 ∧
  length (cfg_user cfg) = 1 ∧ length (cfg_password cfg) = 1.
Proof.
  intros Hargs Henv Hstart.
  pose proof (load_config_Started _ _ _ _ Hstart) as (_ & Hp & Hu & Hpw).
  assert (cfg_port cfg = [23%Z]) as Hport.
  { revert Hstart. unfold load_config.
    destruct (apply_default _ "GPON_HOSTNAMES" _ _ _) as [hostname|]; [|done].
    unfold apply_default at 1. rewrite Hargs. unfold parse_env_list at 1. rewrite Henv.
    destruct (apply_default _ "GPON_USERS" _ _ _) as [user|]; [|done].
    destruct (apply_default _ "GPON_PASSWORDS" _ _ _) as [password|]; [|done].
    repeat case_bool_decide; try done.
    destruct (lengths_differ _); [done|]. by intros [= <-]. }
  rewrite Hport in Hp. cbn in Hp. repeat split; [done|lia..].
Qed.

Lemma default_port_serves_one_device_witness :
  [23%Z] = [23%Z] ∧ length ["192.168.1.1"] = 1 ∧
  length ["admin"] = 1 ∧ length ["secret"] = 1.
Proof.
  apply (default_port_serves_one_device (λ _, Raise Error)
           (<["GPON_HOSTNAMES" := "192.168.1.1"]>
              (<["GPON_USERS" := "admin"]> (<["GPON_PASSWORDS" := "secret"]> ∅)))
           (mkArgs None None None None)
           (mkConfig ["192.168.1.1"] [23%Z] ["admin"] ["secret"])); reflexivity.
Defined.

(** X17.  Lists given on the command line are taken as they are: when
    all four are given, not empty and of one length, the configuration
    is made of them, and the environment is not looked at, not even a
    port variable that is no number. *)
Theorem command_line_wins (int : string → Outcome Z) (environ : Environ)
    (hostname : list string) (port : list Z) (user password : list string) :
  hostname ≠ [] →
  length port = length hostname →
  length user = length hostname →
  length password = length hostname →
  load_config int environ (mkArgs (Some hostname) (Some port) (Some user) (Some password)) =
    Started (mkConfig hostname port user password).
Proof.
  intros Hne Hp Hu Hpw. unfold load_config, apply_default. cbn.
  destruct hostname as [|h hostname]; [done|].
  destruct port as [|po port]; [done|].
  destruct user as [|u user]; [done|].
  destruct password as [|pw password]; [done|].
  repeat case_bool_decide; try done.
  assert (lengths_differ
            [length (h :: hostname); length (po :: port);
             length (u :: user); length (pw :: password)] = false) as ->; [|done].
  apply lengths_differ_false. by rewrite Hp, Hu, Hpw.
Qed.

Lemma command_line_wins_witness :
  load_config (λ _, Raise Error) (<["GPON_PORTS" := "telnet"]> ∅)
    (mkArgs (Some ["192.168.1.1"]) (Some [23%Z]) (Some ["admin"]) (Some ["secret"])) =
    Started (mkConfig ["192.168.1.1"] [23%Z] ["admin"] ["secret"]).
Proof. by apply command_line_wins. Defined.

(** ** The polling sweep *)





